(** * gen-v: generation orchestration and clip assembly

    Shallow embedding of parts of
    - [gen_v/video/generation.py]: [send_request_to_google_api],
      [fetch_operation], [image_to_video], [generate_videos_and_download],
      [generate_video_for_item], [generate_videos_concurrently];
    - [gen_v/storage/gcs.py]: [download_file_locally],
      [get_file_name_from_gcs_url];
    - [gen_v/video/editing.py]: [trim_clips], [get_opposite_side],
      [set_target_resolution], [merge_arrays], [fade_in], [slide_in],
      [cross_fade], [swipe], [concatenate_video_clips];
    - [components/video_editing.py]: [calculate_audio_duration] and the
      durations of [load_audio_clips];
    - [gen_v/utils/image.py]: [hex_to_rgb], [rescale_image_height],
      [rescale_image_width], [rescale_image_to_fit],
      [place_rescaled_image_on_background].

    Python exceptions are an explicit error type; network, storage and
    sleeping are effects of a small state/error monad over a [world] whose
    HTTP endpoint answers from a script, one entry per POST.  Clip and
    audio durations (Python floats) are exact rationals [Q]; the image
    sizes computed by the rescaling go through IEEE double rounding. *)

From Stdlib Require Import String Ascii List ZArith QArith Qround Lqa Lia Bool.
Import ListNotations.
Open Scope string_scope.

(** ** Python exceptions that the embedded code raises or catches *)
Inductive exn : Type :=
| HTTPError            (* requests.exceptions.HTTPError *)
| ConnectionError      (* requests.exceptions.ConnectionError *)
| NotFound             (* google.cloud.exceptions.NotFound *)
| KeyError
| TypeError
| ValueError
| IndexError
| ZeroDivisionError
| AttributeError.

Definition exn_eq_dec (x y : exn) : {x = y} + {x <> y}.
Proof. decide equality. Defined.

Definition is_http_error (e : exn) : bool :=
  match e with HTTPError => true | _ => false end.

(** ** JSON bodies returned by the Google endpoints

    Only the keys the code reads: ['done'], ['name'] and
    ['response']['videos'][*]['gcsUri']; [b_tag] tells payloads apart. *)
Record body := mkBody {
  b_done : option bool;
  b_name : option string;
  b_videos : option (list string);
  b_tag : nat;
}.

(** One scripted answer of the fake endpoint to a POST. *)
Inductive outcome : Type :=
| Raise (e : exn)                (* requests.post itself raises *)
| Reply (code : Z) (b : body).   (* an HTTP response with status [code] *)

Record world := mkWorld {
  replies : list outcome;          (* answers still to be given, in order *)
  sent : list (string * string);   (* (endpoint, request body) of each POST *)
  sleeps : list Z;                 (* arguments of every time.sleep call *)
  error_logs : nat;                (* number of logger.error calls *)
  blobs : list string;             (* GCS objects that exist *)
  local_files : list string;       (* files written by downloads *)
}.

Definition set_replies (r : list outcome) (w : world) : world :=
  mkWorld r (sent w) (sleeps w) (error_logs w) (blobs w) (local_files w).
Definition add_sent (x : string * string) (w : world) : world :=
  mkWorld (replies w) (sent w ++ [x]) (sleeps w) (error_logs w) (blobs w)
    (local_files w).
Definition add_sleep (s : Z) (w : world) : world :=
  mkWorld (replies w) (sent w) (sleeps w ++ [s]) (error_logs w) (blobs w)
    (local_files w).
Definition add_error_log (w : world) : world :=
  mkWorld (replies w) (sent w) (sleeps w) (S (error_logs w)) (blobs w)
    (local_files w).
Definition add_local_file (f : string) (w : world) : world :=
  mkWorld (replies w) (sent w) (sleeps w) (error_logs w) (blobs w)
    (local_files w ++ [f]).

(** ** The state/error monad *)
Module PyM.
Definition M (A : Type) : Type := world -> (exn + A) * world.

Definition ret {A} (a : A) : M A := fun w => (inr a, w).
Definition raise {A} (e : exn) : M A := fun w => (inl e, w).
Definition bind {A B} (m : M A) (f : A -> M B) : M B :=
  fun w => match m w with
           | (inl e, w') => (inl e, w')
           | (inr a, w') => f a w'
           end.
(** [try: m except e: h e]; the handler re-raises what it does not catch. *)
Definition try_except {A} (m : M A) (h : exn -> M A) : M A :=
  fun w => match m w with
           | (inl e, w') => h e w'
           | r => r
           end.
Definition modify (f : world -> world) : M unit := fun w => (inr tt, f w).
End PyM.

Import PyM.
Declare Scope pym_scope.
Notation "x <- m ;; k" := (bind m (fun x => k))
  (at level 61, m at next level, right associativity) : pym_scope.
Notation "m ;;; k" := (bind m (fun _ => k))
  (at level 61, right associativity) : pym_scope.
Open Scope pym_scope.

Definition log_error : M unit := modify add_error_log.
Definition sleep (secs : Z) : M unit := modify (add_sleep secs).

(** ** [gen_v/video/generation.py] *)
Module Generation.

Record AppSettings := mkSettings {
  fetch_endpoint : string;
  prediction_endpoint : string;
  selected_prompt_text : string;
  prompt_type : string;
  output_file_prefix : string;
  veo_output_gcs_uri_base : string;
  veo_add_date_to_output_path : bool;
}.

(** [requests.post]: records the request and takes the next scripted
    answer; an endpoint with no answer left is unreachable. *)
Definition requests_post (endpoint data : string) : M (Z * body) :=
  fun w =>
    let w := add_sent (endpoint, data) w in
    match replies w with
    | [] => (inl ConnectionError, w)
    | Raise e :: r => (inl e, set_replies r w)
    | Reply code b :: r => (inr (code, b), set_replies r w)
    end.

(** [response.raise_for_status()]: 4xx and 5xx raise [HTTPError]. *)
Definition raise_for_status (code : Z) : M unit :=
  if (400 <=? code)%Z && (code <? 600)%Z then raise HTTPError else ret tt.

(** The bearer token only fills a header, so it is not modelled. *)
Definition send_request_to_google_api (api_endpoint data : string)
  : M body :=
  response <- requests_post api_endpoint data ;;
  raise_for_status (fst response) ;;;
  ret (snd response).

Definition max_attempts : nat := 30.
Definition attempt_interval : Z := 10.

(** [{'operationName': lro_name}] *)
Definition operation_request (lro_name : string) : string :=
  "operationName=" ++ lro_name.

(** ['done' in resp and resp['done']] *)
Definition is_done (resp : body) : bool :=
  match b_done resp with Some true => true | _ => false end.

(** One iteration of the body of the polling loop, up to the sleep:
    [Some resp] is the early [return resp]. *)
Definition fetch_attempt (endpoint request : string) : M (option body) :=
  try_except
    (resp <- send_request_to_google_api endpoint request ;;
     if is_done resp then ret (Some resp) else ret None)
    (fun e => if is_http_error e then log_error ;;; ret None
              else raise e).

Fixpoint fetch_loop (endpoint request : string) (n : nat)
  : M (option body) :=
  match n with
  | O => ret None
  | S n' =>
      r <- fetch_attempt endpoint request ;;
      match r with
      | Some resp => ret (Some resp)
      | None => sleep attempt_interval ;;; fetch_loop endpoint request n'
      end
  end.

Definition fetch_operation (lro_name : string) (settings : AppSettings)
  : M (option body) :=
  fetch_loop (fetch_endpoint settings) (operation_request lro_name)
    max_attempts.

(** [image_to_video], with [veo_request.to_api_payload()] given as the
    serialised [payload]. *)
Definition image_to_video (payload : string) (settings : AppSettings)
  : M (option body) :=
  try_except
    (resp <- send_request_to_google_api (prediction_endpoint settings)
               payload ;;
     match b_name resp with
     | Some name => fetch_operation name settings
     | None => raise KeyError
     end)
    (fun e => if is_http_error e then log_error ;;; ret None
              else raise e).

(** *** Storage helpers of [gen_v/storage/gcs.py] *)

(** [gcs_uri.split("/")[-1]] *)
Fixpoint last_segment_acc (s acc : string) : string :=
  match s with
  | EmptyString => acc
  | String c r =>
      if Ascii.eqb c "/"%char then last_segment_acc r ""
      else last_segment_acc r (acc ++ String c "")
  end.
Definition get_file_name_from_gcs_url (gcs_uri : string) : string :=
  last_segment_acc gcs_uri "".

Definition tmp_string : string := "/content".

(** [get_blob] always returns a [Blob] handle (never falsy), so the
    [if not blob] guard never fires; [blob.download_to_filename] raises
    [NotFound] when the object does not exist. *)
Definition download_file_locally (uri : string) (file_name : option string)
  : M string :=
  fun w =>
    if existsb (String.eqb uri) (blobs w) then
      let fname := match file_name with
                   | Some f => if String.eqb f "" then
                                 get_file_name_from_gcs_url uri
                               else f
                   | None => get_file_name_from_gcs_url uri
                   end in
      let local_file_path :=
        match String.index 0 tmp_string fname with
        | None => tmp_string ++ "/" ++ fname
        | Some _ => fname
        end in
      (inr local_file_path, add_local_file local_file_path w)
    else (inl NotFound, w).

(** Modelled from the spec: [storage.move_blob] ("relocates/renames the
    uploaded asset"), which [gen_v/storage/__init__.py] imports but
    [gen_v/storage/gcs.py] does not define.  The object is moved into the
    folder [file_name]; a missing object is [NotFound]. *)
Definition move_blob (uri file_name : string) : M string :=
  fun w =>
    if existsb (String.eqb uri) (blobs w) then
      (inr (file_name ++ "/" ++ get_file_name_from_gcs_url uri), w)
    else (inl NotFound, w).

(** *** Items, requests and results *)

(** A Python [dict] of strings, as an association list. *)
Definition dict : Type := list (string * string).

Fixpoint dict_get (k : string) (d : dict) : option string :=
  match d with
  | [] => None
  | (k', v) :: d' => if String.eqb k k' then Some v else dict_get k d'
  end.

(** The fields of [models.VeoApiRequest] that [generate_video_for_item]
    computes per item; the others are copied from the settings. *)
Record VeoApiRequest := mkVeoRequest {
  prompt : string;
  image_uri : string;
  gcs_uri : string;
}.

(** [to_api_payload], serialised. *)
Definition to_api_payload (r : VeoApiRequest) : string :=
  "prompt=" ++ prompt r ++ ";image=" ++ image_uri r ++ ";storageUri="
    ++ gcs_uri r.

Record video_info := mkVideoInfo {
  v_gcs_uri : string;
  v_local_file : string;
  v_local_file_name : string;
  v_product_title : string;
  v_promo_text : string;
}.

(** [product['title']] *)
Definition get_title (product : dict) : M string :=
  match dict_get "title" product with
  | Some t => ret t
  | None => raise KeyError
  end.

(** The [for video in output_videos['response']['videos']] loop. *)
Fixpoint download_and_move_all (file_name output_file_prefix : string)
    (product : dict) (videos : list string) : M (list video_info) :=
  match videos with
  | [] => ret []
  | gcs :: rest =>
      let veo_name := get_file_name_from_gcs_url gcs in
      let local := file_name ++ "-" ++ output_file_prefix ++ "-" ++ veo_name in
      download_file_locally gcs (Some local) ;;;
      video_uri <- move_blob gcs file_name ;;
      title <- get_title product ;;
      infos <- download_and_move_all file_name output_file_prefix product rest ;;
      ret (mkVideoInfo video_uri local (get_file_name_from_gcs_url local)
             title "" :: infos)
  end.

Definition generate_videos_and_download (veo_request : VeoApiRequest)
    (settings : AppSettings) (output_file_prefix : string) (product : dict)
  : M (list video_info) :=
  output_videos <- image_to_video (to_api_payload veo_request) settings ;;
  let file_name := get_file_name_from_gcs_url (image_uri veo_request) in
  (* output_videos['response']['videos']; None['response'] is a TypeError *)
  videos <- match output_videos with
            | None => raise TypeError
            | Some b => match b_videos b with
                        | None => raise KeyError
                        | Some vs => ret vs
                        end
            end ;;
  download_and_move_all file_name output_file_prefix product videos.

Section Batch.
(** [get_gemini_generated_video_prompt] (a Vertex AI call) on a prompt
    text and a local image path. *)
Variable get_gemini_generated_video_prompt : string -> string -> M string.
(** [utils.get_current_week_year_str(date.today())] *)
Variable week_year : string.

Definition generate_video_for_item (item_data : dict)
    (settings : AppSettings) : M (list video_info) :=
  match dict_get "recolored_image_uri" item_data with
  | None => ret []           (* logger.warning, then return [] *)
  | Some recolored_image_uri =>
      local <- download_file_locally recolored_image_uri None ;;
      let base_prompt_text := selected_prompt_text settings in
      final_prompt <-
        (if String.eqb (prompt_type settings) "CUSTOM" then
           ret base_prompt_text
         else if String.eqb (prompt_type settings) "GEMINI" then
           get_gemini_generated_video_prompt base_prompt_text local
         else log_error ;;; ret "") ;;
      let output_gcs_uri :=
        if veo_add_date_to_output_path settings then
          veo_output_gcs_uri_base settings ++ week_year ++ "/"
        else veo_output_gcs_uri_base settings in
      let veo_request :=
        mkVeoRequest final_prompt recolored_image_uri output_gcs_uri in
      generate_videos_and_download veo_request settings
        (output_file_prefix settings) item_data
  end.

(** A [concurrent.futures.Future]: the worker ran to a result or to an
    exception, which is stored, not raised. *)
Definition run_future {A} (m : M A) : M (exn + A) :=
  fun w => let (r, w') := m w in (inr r, w').

(** [executor.map(worker_func, items)] submits every item; the workers
    are run here one after the other, in input order. *)
Fixpoint executor_map (settings : AppSettings) (items : list dict)
  : M (list (exn + list video_info)) :=
  match items with
  | [] => ret []
  | it :: rest =>
      r <- run_future (generate_video_for_item it settings) ;;
      rs <- executor_map settings rest ;;
      ret (r :: rs)
  end.

(** Iterating the results of [executor.map]: [future.result()] re-raises
    the stored exception of a failed worker. *)
Fixpoint collect_results (acc : list video_info)
    (results : list (exn + list video_info)) : M (list video_info) :=
  match results with
  | [] => ret acc
  | inl e :: _ => raise e
  | inr video_list :: rest => collect_results (acc ++ video_list) rest
  end.

Definition generate_videos_concurrently (items_to_process : list dict)
    (settings : AppSettings) : M (list video_info) :=
  results <- executor_map settings items_to_process ;;
  collect_results [] results.
End Batch.

End Generation.

(** Python's [<] on floats, as a boolean on [Q]. *)
Definition Qlt_bool (x y : Q) : bool := negb (Qle_bool y x).

(** ** [gen_v/video/editing.py] *)
Module Editing.
Local Open Scope Q_scope.

(** A clip is represented by its [duration].  [subclipped] is the
    compositing engine's trim (moviepy 2's [Clip.subclipped]): a negative
    bound counts back from the end, a start at or past the end is a
    [ValueError], and the new duration is [end_time - start_time]. *)
Definition subclipped (duration start_time : Q) (end_time : option Q)
  : exn + Q :=
  let start_time := if Qlt_bool start_time 0 then duration + start_time
                    else start_time in
  if Qle_bool duration start_time then inl ValueError
  else
    let end_time := match end_time with
                    | None => duration
                    | Some e => if Qlt_bool e 0 then duration + e else e
                    end in
    inr (end_time - start_time).

Fixpoint sum_durations (video_clips : list Q) : Q :=
  match video_clips with
  | [] => 0
  | d :: r => d + sum_durations r
  end.

(** [video_clips[1:-1]] *)
Definition interior {A} (video_clips : list A) : list A :=
  removelast (tl video_clips).

(** Writing back [video_clips[index + 1] = trimmed_clip] for every
    interior index: the first and the last element are kept. *)
Definition replace_interior {A} (video_clips new_interior : list A) : list A :=
  match video_clips with
  | [] => []
  | first :: rest =>
      match rest with
      | [] => [first]
      | _ :: _ => first :: new_interior ++ [last rest first]
      end
  end.

(** The body of the loop over the interior clips. *)
Definition trim_one (trim_location : string) (trim_length d : Q)
  : exn + Q :=
  if String.eqb trim_location "start" then
    subclipped d (- (d - trim_length)) None
  else if String.eqb trim_location "end" then
    subclipped d 0 (Some (d - trim_length))
  else inl ValueError.

Fixpoint trim_all (trim_location : string) (trim_length : Q)
    (clips : list Q) : exn + list Q :=
  match clips with
  | [] => inr []
  | d :: r =>
      match trim_one trim_location trim_length d with
      | inl e => inl e
      | inr d' =>
          match trim_all trim_location trim_length r with
          | inl e => inl e
          | inr r' => inr (d' :: r')
          end
      end
  end.

Definition number_of_intros_outros_clips : Z := 2.

(** [trim_clips] on the clip durations. *)
Definition trim_clips (video_clips : list Q) (padding output_length : Q)
    (trim_location : string) (trim_enabled : bool) : exn + list Q :=
  let n := Z.of_nat (length video_clips) in
  let total_length :=
    sum_durations video_clips - padding * inject_Z (n - 1) in
  let total_trim_length := total_length - output_length in
  if Qlt_bool total_trim_length 0 || negb trim_enabled then inr video_clips
  else
    let number_of_veo_clips := (n - number_of_intros_outros_clips)%Z in
    if Z.eqb number_of_veo_clips 0 then inl ZeroDivisionError
    else
      let trim_length := total_trim_length / inject_Z number_of_veo_clips in
      match trim_all trim_location trim_length (interior video_clips) with
      | inl e => inl e
      | inr trimmed => inr (replace_interior video_clips trimmed)
      end.

(** The padding-adjusted total of the spec. *)
Definition adjusted_total (video_clips : list Q) (padding : Q) : Q :=
  sum_durations video_clips
    - padding * inject_Z (Z.of_nat (length video_clips) - 1).

Definition get_opposite_side (side : string) : exn + string :=
  if String.eqb side "left" then inr "right"
  else if String.eqb side "right" then inr "left"
  else if String.eqb side "top" then inr "bottom"
  else if String.eqb side "bottom" then inr "top"
  else inl ValueError.

(** [set_target_resolution], given [clip.size] of the first clip. *)
Definition set_target_resolution (clip_dimension : Z * Z)
    (resized_image_width resized_image_height : Z) : Z * Z :=
  let (cw, ch) := clip_dimension in
  if (cw <? ch)%Z then
    if (resized_image_width >? resized_image_height)%Z then
      (resized_image_height, resized_image_width)
    else (resized_image_width, resized_image_height)
  else if (cw >? ch)%Z then
    if (resized_image_width >? resized_image_height)%Z then
      (resized_image_width, resized_image_height)
    else (resized_image_height, resized_image_width)
  else
    let minimum_size := Z.min resized_image_height resized_image_width in
    (minimum_size, minimum_size).
End Editing.

(** [trim_clips] on the clips themselves.  A clip plays a window of its
    source: its frame at time [t] is the source's frame at [offset + t],
    for [0 <= t < duration].  moviepy 2's [subclipped] builds
    [time_transform(lambda t: t + start_time)], which moves the window's
    start by [start_time], and sets the duration to
    [end_time - start_time]. *)
Module EditingClips.
Local Open Scope Q_scope.

Record VideoClip := mkClip { offset : Q; duration : Q }.

Definition subclipped (clip : VideoClip) (start_time : Q)
    (end_time : option Q) : exn + VideoClip :=
  let start_time := if Qlt_bool start_time 0 then duration clip + start_time
                    else start_time in
  if Qle_bool (duration clip) start_time then inl ValueError
  else
    let end_time := match end_time with
                    | None => duration clip
                    | Some e => if Qlt_bool e 0 then duration clip + e else e
                    end in
    inr (mkClip (offset clip + start_time) (end_time - start_time)).

(** The body of the loop over [video_clips[1:-1]]. *)
Definition trim_one (trim_location : string) (trim_length : Q)
    (video : VideoClip) : exn + VideoClip :=
  if String.eqb trim_location "start" then
    subclipped video (- (duration video - trim_length)) None
  else if String.eqb trim_location "end" then
    subclipped video 0 (Some (duration video - trim_length))
  else inl ValueError.

Fixpoint trim_all (trim_location : string) (trim_length : Q)
    (clips : list VideoClip) : exn + list VideoClip :=
  match clips with
  | [] => inr []
  | c :: r =>
      match trim_one trim_location trim_length c with
      | inl e => inl e
      | inr c' =>
          match trim_all trim_location trim_length r with
          | inl e => inl e
          | inr r' => inr (c' :: r')
          end
      end
  end.

Definition trim_clips (video_clips : list VideoClip) (padding output_length : Q)
    (trim_location : string) (trim_enabled : bool) : exn + list VideoClip :=
  let n := Z.of_nat (length video_clips) in
  let total_length :=
    Editing.sum_durations (map duration video_clips)
      - padding * inject_Z (n - 1) in
  let total_trim_length := total_length - output_length in
  if Qlt_bool total_trim_length 0 || negb trim_enabled then inr video_clips
  else
    let number_of_veo_clips :=
      (n - Editing.number_of_intros_outros_clips)%Z in
    if Z.eqb number_of_veo_clips 0 then inl ZeroDivisionError
    else
      let trim_length := total_trim_length / inject_Z number_of_veo_clips in
      match trim_all trim_location trim_length
              (Editing.interior video_clips) with
      | inl e => inl e
      | inr trimmed => inr (Editing.replace_interior video_clips trimmed)
      end.

Definition adjusted_total (video_clips : list VideoClip) (padding : Q) : Q :=
  Editing.adjusted_total (map duration video_clips) padding.
End EditingClips.

(** ** [components/video_editing.py] *)
Module VideoEditing.
Local Open Scope Q_scope.

(** [media.AudioInput] *)
Record AudioInput := mkAudioInput {
  path : string;
  start_time : Q;
  duration : option Q;   (* float | None *)
}.

(** Python truthiness of [duration]: [None] and [0.0] are falsy. *)
Definition truthy (d : option Q) : bool :=
  match d with
  | None => false
  | Some q => negb (Qeq_bool q 0)
  end.

Definition calculate_audio_duration (i : nat) (audio_inputs : list AudioInput)
    (video_duration : Q) : exn + Q :=
  match nth_error audio_inputs i with
  | None => inl IndexError
  | Some a =>
      if negb (truthy (duration a)) then
        let next_start_time :=
          if Nat.ltb i (length audio_inputs - 1) then
            match nth_error audio_inputs (S i) with
            | Some b => inr (start_time b)
            | None => inl IndexError
            end
          else inr video_duration in
        match next_start_time with
        | inl e => inl e
        | inr t => inr (t - start_time a)
        end
      else
        match duration a with
        | Some d => inr d
        | None => inr 0   (* unreachable: None is falsy *)
        end
  end.

(** The durations [load_audio_clips] computes, one per overlay. *)
Definition resolved_durations (audio_inputs : list AudioInput)
    (video_duration : Q) : list (exn + Q) :=
  map (fun i => calculate_audio_duration i audio_inputs video_duration)
    (seq 0 (length audio_inputs)).
End VideoEditing.

(** ** [gen_v/utils/image.py] *)
Module Image.

(** [str.lstrip('#')] *)
Fixpoint lstrip_hash (s : string) : string :=
  match s with
  | String c r => if Ascii.eqb c "#"%char then lstrip_hash r else s
  | EmptyString => s
  end.

(** [s[i:j]] for [0 <= i <= j]. *)
Definition slice (s : string) (i j : nat) : string := substring i (j - i) s.

Definition hex_digit (c : ascii) : option Z :=
  let n := Z.of_nat (nat_of_ascii c) in
  if (48 <=? n)%Z && (n <=? 57)%Z then Some (n - 48)%Z          (* 0-9 *)
  else if (97 <=? n)%Z && (n <=? 102)%Z then Some (n - 87)%Z    (* a-f *)
  else if (65 <=? n)%Z && (n <=? 70)%Z then Some (n - 55)%Z     (* A-F *)
  else None.

Definition is_space (c : ascii) : bool :=
  let n := nat_of_ascii c in
  Nat.eqb n 32 || (Nat.leb 9 n && Nat.leb n 13).

Fixpoint strip_left (cs : list ascii) : list ascii :=
  match cs with
  | c :: r => if is_space c then strip_left r else cs
  | [] => []
  end.

Definition strip (cs : list ascii) : list ascii :=
  rev (strip_left (rev (strip_left cs))).

(** Digits of the form [(["_"] hexdigit)*], accumulated into [acc]. *)
Fixpoint underscore_digits (cs : list ascii) (acc : Z) : option Z :=
  match cs with
  | [] => Some acc
  | c :: r =>
      match hex_digit c with
      | Some v => underscore_digits r (acc * 16 + v)%Z
      | None =>
          if Ascii.eqb c "_"%char then
            match r with
            | c' :: r' =>
                match hex_digit c' with
                | Some v => underscore_digits r' (acc * 16 + v)%Z
                | None => None
                end
            | [] => None
            end
          else None
      end
  end.

(** The unsigned part of [int(s, 16)]: an optional [0x]/[0X] prefix
    followed by [(["_"] hexdigit)+], or [hexdigit (["_"] hexdigit)*]. *)
Definition unsigned_hex (cs : list ascii) : option Z :=
  match cs with
  | "0"%char :: x :: (_ :: _) as r
      => if Ascii.eqb x "x"%char || Ascii.eqb x "X"%char
         then underscore_digits r 0
         else match hex_digit "0"%char with
              | Some v => underscore_digits (x :: r) v
              | None => None
              end
  | c :: r => match hex_digit c with
              | Some v => underscore_digits r v
              | None => None
              end
  | [] => None
  end.

(** Python's [int(s, 16)] on an ASCII string. *)
Definition int16 (s : string) : exn + Z :=
  let cs := strip (list_ascii_of_string s) in
  let signed :=
    match cs with
    | "-"%char :: r => option_map Z.opp (unsigned_hex r)
    | "+"%char :: r => unsigned_hex r
    | _ => unsigned_hex cs
    end in
  match signed with
  | Some v => inr v
  | None => inl ValueError
  end.

Definition hex_to_rgb (hex_color_string : string) : exn + (Z * Z * Z) :=
  let hex_code := lstrip_hash hex_color_string in
  if negb (Nat.eqb (String.length hex_code) 6) then inl ValueError
  else
    match int16 (slice hex_code 0 2), int16 (slice hex_code 2 4),
          int16 (slice hex_code 4 6) with
    | inr red, inr green, inr blue => inr (red, green, blue)
    | inl e, _, _ | _, inl e, _ | _, _, inl e => inl e
    end.
End Image.

(** ** Timeline assembly of [gen_v/video/editing.py] *)
Module Assembly.
Import Editing.
Local Open Scope Q_scope.

(** [merge_arrays]: the first intro/outro clip, the main clips, the last
    intro/outro clip. *)
Definition merge_arrays {A} (intro_outro_videos main_content_videos : list A)
  : list A :=
  match intro_outro_videos with
  | [] => main_content_videos
  | first :: _ =>
      [first] ++ main_content_videos ++ [last intro_outro_videos first]
  end.

(** A layer of a [CompositeVideoClip]: its start time and duration. *)
Record layer := mkLayer { l_start : Q; l_duration : Q }.

Definition l_end (l : layer) : Q := l_start l + l_duration l.

(** The loop of [fade_in] and [slide_in]: each clip starts at [idx], then
    [idx += video.duration - padding]. *)
Fixpoint chain_layers (idx padding : Q) (video_clips : list Q) : list layer :=
  match video_clips with
  | [] => []
  | d :: rest => mkLayer idx d :: chain_layers (idx + (d - padding)) padding rest
  end.

(** The layers of [fade_in]; [video_clips[0]] fails on an empty list. *)
Definition fade_in (video_clips : list Q) (padding : Q) : exn + list layer :=
  match video_clips with
  | [] => inl IndexError
  | d0 :: rest => inr (mkLayer 0 d0 :: chain_layers (d0 - padding) padding rest)
  end.

(** moviepy's [SlideIn(duration, side).apply(clip)]: it returns
    [clip.with_position(pos_dict[self.side])], where [pos_dict] has the
    keys left, right, top and bottom; any other side is a [KeyError].  The
    position leaves the clip's start and duration as they are. *)
Definition SlideIn_apply (side : string) (clip : layer) : exn + layer :=
  if String.eqb side "left" || String.eqb side "right"
     || String.eqb side "top" || String.eqb side "bottom"
  then inr clip
  else inl KeyError.

(** The clips after the first, each through [SlideIn(padding, side)]. *)
Fixpoint slide_all (side : string) (clips : list layer) : exn + list layer :=
  match clips with
  | [] => inr []
  | l :: r =>
      match SlideIn_apply side l with
      | inl e => inl e
      | inr l' =>
          match slide_all side r with
          | inl e => inl e
          | inr r' => inr (l' :: r')
          end
      end
  end.

(** [slide_in]: the timing of [fade_in], with [SlideIn(padding, side)]
    applied to every clip after the first. *)
Definition slide_in (video_clips : list Q) (padding : Q) (side : string)
  : exn + list layer :=
  match video_clips with
  | [] => inl IndexError
  | d0 :: rest =>
      match slide_all side (chain_layers (d0 - padding) padding rest) with
      | inl e => inl e
      | inr slid => inr (mkLayer 0 d0 :: slid)
      end
  end.

Definition max_end (x y : Q) : Q := if Qle_bool x y then y else x.

(** The duration of a [CompositeVideoClip]: the largest end of its
    layers. *)
Definition composite_duration (layers : list layer) : Q :=
  match layers with
  | [] => 0
  | l :: rest => fold_left (fun m l' => max_end m (l_end l')) rest (l_end l)
  end.

(** The loop of [cross_fade] and [swipe] on the duration of the composed
    clip: the next clip starts at [composed_clip.duration - padding] and the
    new composite lasts until the later of the two ends. *)
Fixpoint compose_chain (composed padding : Q) (rest : list Q) : Q :=
  match rest with
  | [] => composed
  | d :: r => compose_chain (max_end composed (composed - padding + d)) padding r
  end.

Definition cross_fade (video_clips : list Q) (padding : Q) : exn + Q :=
  match video_clips with
  | [] => inl IndexError
  | d0 :: rest => inr (compose_chain d0 padding rest)
  end.

(** [swipe] reads [video_clips[0]], then [get_opposite_side(side)]. *)
Definition swipe (video_clips : list Q) (padding : Q) (side : string)
  : exn + Q :=
  match video_clips with
  | [] => inl IndexError
  | d0 :: rest =>
      match get_opposite_side side with
      | inl e => inl e
      | inr _ => inr (compose_chain d0 padding rest)
      end
  end.

(** [models.VideoTransition] *)
Record VideoTransition := mkTransition {
  t_name : string;
  t_padding : Q;
  t_side : string;
}.

(** A local video file: its path, duration and frame size. *)
Record clip_file := mkClipFile {
  cf_path : string;
  cf_duration : Q;
  cf_size : Z * Z;
}.

Fixpoint find_clip (path : string) (files : list clip_file) : option clip_file :=
  match files with
  | [] => None
  | c :: r => if String.eqb (cf_path c) path then Some c else find_clip path r
  end.

(** Errors of the assembly: Python exceptions, and the [OSError] of
    [VideoFileClip] on a missing file. *)
Inductive edit_error := PyErr (e : exn) | OSError.

(** [mp.VideoFileClip(vid)] for every path. *)
Fixpoint load_all (videos : list string) (files : list clip_file)
  : edit_error + list Q :=
  match videos with
  | [] => inr []
  | v :: r =>
      match find_clip v files with
      | None => inl OSError
      | Some c =>
          match load_all r files with
          | inl e => inl e
          | inr ds => inr (cf_duration c :: ds)
          end
      end
  end.

(** The [match transition.name] of [concatenate_video_clips], giving the
    duration of the composed clip. *)
Definition compose (transition : VideoTransition) (video_clips : list Q)
  : exn + Q :=
  let padding := t_padding transition in
  if String.eqb (t_name transition) "CROSS_FADE" then cross_fade video_clips padding
  else if String.eqb (t_name transition) "FADE_IN" then
    match fade_in video_clips padding with
    | inl e => inl e
    | inr ls => inr (composite_duration ls)
    end
  else if String.eqb (t_name transition) "SWIPE" then
    swipe video_clips padding (t_side transition)
  else if String.eqb (t_name transition) "SLIDE_IN" then
    match slide_in video_clips padding (t_side transition) with
    | inl e => inl e
    | inr ls => inr (composite_duration ls)
    end
  else inl ValueError.

(** [os.remove(path)]. *)
Definition remove_file (path : string) (files : list clip_file) : list clip_file :=
  filter (fun c => negb (String.eqb (cf_path c) path)) files.

(** The [finally] clause: [os.remove] on every input in turn; the
    [FileNotFoundError] of a missing file ends the loop and is swallowed. *)
Fixpoint remove_inputs (videos : list string) (files : list clip_file)
  : list clip_file :=
  match videos with
  | [] => files
  | v :: r =>
      match find_clip v files with
      | None => files
      | Some _ => remove_inputs r (remove_file v files)
      end
  end.

(** The [try] block: load, trim, compose, and write the target file. *)
Definition concatenate_body (videos : list string) (transition : VideoTransition)
    (output_length : Q) (trim_location : string)
    (resized_image_width resized_image_height : Z) (tmp_string : string)
    (files : list clip_file) : (edit_error + string) * list clip_file :=
  match videos with
  | [] => (inl (PyErr ValueError), files)
  | v0 :: _ =>
      let target_path := tmp_string ++ "/concat_target.mp4" in
      match find_clip v0 files with
      | None => (inl OSError, files)
      | Some c0 =>
          let target_resolution :=
            set_target_resolution (cf_size c0) resized_image_width
              resized_image_height in
          match load_all videos files with
          | inl e => (inl e, files)
          | inr video_clips =>
              match trim_clips video_clips (t_padding transition) output_length
                      trim_location true with
              | inl e => (inl (PyErr e), files)
              | inr trimmed =>
                  match compose transition trimmed with
                  | inl e => (inl (PyErr e), files)
                  | inr d =>
                      (inr target_path,
                       mkClipFile target_path d target_resolution
                         :: remove_file target_path files)
                  end
              end
          end
      end
  end.

Definition concatenate_video_clips (videos : list string)
    (transition : VideoTransition) (output_length : Q) (trim_location : string)
    (resized_image_width resized_image_height : Z) (tmp_string : string)
    (files : list clip_file) : (edit_error + string) * list clip_file :=
  let (r, files') :=
    concatenate_body videos transition output_length trim_location
      resized_image_width resized_image_height tmp_string files in
  (r, remove_inputs videos files').
End Assembly.

(** ** Rescaling and placement of [gen_v/utils/image.py]

    Image sizes are integers.  Python's [/] on them and [*] on floats
    round their exact result to the nearest double ([to_double]), as
    IEEE 754 prescribes; the sizes stay in the normal range of doubles, so
    neither overflow nor subnormals are modelled. *)
Module ImageFit.
Local Open Scope Q_scope.













End ImageFit.

(** ** Worlds, requests and inputs used by the properties *)
Module Fixtures.
Import Generation.

(** The world after [k] pending polls, whose answers are consumed. *)
Definition after_polls (ep req : string) (k : nat) (rest : list outcome)
    (w : world) : world :=
  mkWorld rest (sent w ++ repeat (ep, req) k)
    (sleeps w ++ repeat attempt_interval k) (error_logs w) (blobs w)
    (local_files w).

Definition pending (b : body) : Prop := is_done b = false.

Definition pending_body : body := mkBody (Some false) None None 0.
Definition done_body : body := mkBody (Some true) None (Some []) 1.
Definition poll_settings : AppSettings :=
  mkSettings "https://fetch" "https://predict" "" "CUSTOM" "" "" false.
Definition script_world (r : list outcome) : world := mkWorld r [] [] 0 [] [].

Definition no_gemini : string -> string -> M string := fun _ _ => ret "".

Definition batch_item (title uri : string) : dict :=
  [("recolored_image_uri", uri); ("title", title)].

Definition batch_settings : AppSettings :=
  mkSettings "https://fetch" "https://predict" "animate" "CUSTOM" "ad"
    "gs://bkt/out/" false.

(** Items 1 and 3 have their image in the bucket and get one video each
    from the endpoint; the image of item 2 does not exist. *)
Definition batch_items : list dict :=
  [batch_item "P1" "gs://bkt/img1.png"; batch_item "P2" "gs://bkt/img2.png";
   batch_item "P3" "gs://bkt/img3.png"].

Definition batch_world : world :=
  mkWorld
    [Reply 200 (mkBody None (Some "op1") None 0);
     Reply 200 (mkBody (Some true) None (Some ["gs://bkt/out/v1.mp4"]) 1);
     Reply 200 (mkBody None (Some "op3") None 0);
     Reply 200 (mkBody (Some true) None (Some ["gs://bkt/out/v3.mp4"]) 3)]
    [] [] 0
    ["gs://bkt/img1.png"; "gs://bkt/img3.png"; "gs://bkt/out/v1.mp4";
     "gs://bkt/out/v3.mp4"]
    [].

Definition video1 : video_info :=
  mkVideoInfo "img1.png/v1.mp4" "img1.png-ad-v1.mp4" "img1.png-ad-v1.mp4"
    "P1" "".
Definition video3 : video_info :=
  mkVideoInfo "img3.png/v3.mp4" "img3.png-ad-v3.mp4" "img3.png-ad-v3.mp4"
    "P3" "".

Import Editing.

Definition sides : list string := ["left"; "right"; "top"; "bottom"].

Import VideoEditing.
Local Open Scope Q_scope.

Definition overlay (p : string) (t : Q) (d : option Q) : AudioInput :=
  mkAudioInput p t d.

Definition mixed_overlays : list AudioInput :=
  [overlay "a.mp3" 0 None; overlay "b.mp3" 5 (Some 3); overlay "c.mp3" 12 None].

(** The characters [int(_, 16)] reads as digits. *)
Definition hex_chars : list ascii :=
  ["0"; "1"; "2"; "3"; "4"; "5"; "6"; "7"; "8"; "9";
   "a"; "b"; "c"; "d"; "e"; "f"; "A"; "B"; "C"; "D"; "E"; "F"]%char.

(** The start of overlay [i], and the end of the host video past the
    last overlay. *)
Definition boundary (audio_inputs : list AudioInput) (video_duration : Q)
    (i : nat) : Q :=
  match nth_error audio_inputs i with
  | Some a => start_time a
  | None => video_duration
  end.

Import Assembly.

(** An intro and an outro of 2 s and 3 s around two 5 s clips, trimmed
    at the end to 8 s with 1 s of padding. *)
Definition merged_trimmed : list Q :=
  Eval vm_compute in
    match trim_clips (merge_arrays [2; 3] [5; 5]) 1 8 "end" true with
    | inr o => o
    | inl _ => []
    end.

Definition clip_files : list clip_file :=
  [mkClipFile "/content/intro.mp4" 2 (1080, 1920)%Z;
   mkClipFile "/content/a.mp4" 5 (1080, 1920)%Z;
   mkClipFile "/content/b.mp4" 5 (1080, 1920)%Z;
   mkClipFile "/content/outro.mp4" 2 (1080, 1920)%Z].

Definition clip_paths : list string :=
  ["/content/intro.mp4"; "/content/a.mp4"; "/content/b.mp4";
   "/content/outro.mp4"].

Definition fade_transition : VideoTransition := mkTransition "FADE_IN" 1 "left".

End Fixtures.

(** * Properties *)
Module GenerationFacts.
Import Generation.
Import Fixtures.

Lemma replies_add_sent x w : replies (add_sent x w) = replies w.
Proof. reflexivity. Qed.

(** One status request answered with HTTP status [code] and body [b]. *)
Lemma fetch_attempt_reply ep req w code b rest :
  replies w = Reply code b :: rest ->
  fetch_attempt ep req w =
    if (400 <=? code)%Z && (code <? 600)%Z then
      (inr None, add_error_log (set_replies rest (add_sent (ep, req) w)))
    else if is_done b then
      (inr (Some b), set_replies rest (add_sent (ep, req) w))
    else (inr None, set_replies rest (add_sent (ep, req) w)).
Proof.
  intros H. unfold fetch_attempt, try_except, send_request_to_google_api,
    bind, requests_post. rewrite replies_add_sent, H.
  unfold raise_for_status. cbn [fst snd].
  destruct ((400 <=? code)%Z && (code <? 600)%Z); [reflexivity|].
  unfold ret. destruct (is_done b); reflexivity.
Qed.

(** One status request on which [requests.post] itself raises. *)
Lemma fetch_attempt_raise ep req w e rest :
  replies w = Raise e :: rest ->
  fetch_attempt ep req w =
    if is_http_error e then
      (inr None, add_error_log (set_replies rest (add_sent (ep, req) w)))
    else (inl e, set_replies rest (add_sent (ep, req) w)).
Proof.
  intros H. unfold fetch_attempt, try_except, send_request_to_google_api,
    bind, requests_post. rewrite replies_add_sent, H.
  destruct (is_http_error e); reflexivity.
Qed.

Lemma fetch_loop_pending ep req pend :
  forall n w rest,
    Forall pending pend -> (length pend <= n)%nat ->
    replies w = (map (Reply 200) pend ++ rest)%list ->
    fetch_loop ep req n w =
      fetch_loop ep req (n - length pend)
        (after_polls ep req (length pend) rest w).
Proof.
  induction pend as [|b pend IH]; intros n w rest Hp Hn Hr.
  - simpl in *. rewrite Nat.sub_0_r. subst.
    destruct w; unfold after_polls; simpl in *; subst.
    rewrite !app_nil_r. reflexivity.
  - inversion Hp as [|? ? Hb Hp']; subst.
    destruct n as [|n]; [simpl in Hn; lia|].
    simpl in Hr. simpl fetch_loop. unfold bind at 1.
    rewrite (fetch_attempt_reply ep req w 200 b _ Hr).
    simpl. unfold pending in Hb. rewrite Hb.
    unfold sleep, modify, bind.
    rewrite (IH n _ rest Hp'); [| simpl in Hn; lia | reflexivity].
    f_equal. destruct w; unfold after_polls; simpl.
    rewrite <- !app_assoc. reflexivity.
Qed.
Lemma never_http_error_200 : ((400 <=? 200)%Z && (200 <? 600)%Z) = false.
Proof. reflexivity. Qed.

(** C1: [fetch_operation] sends the status request once per attempt,
    sleeps [attempt_interval] (10 s) after every attempt that is not done,
    and returns the first response whose [done] flag is true, within
    [max_attempts] (30) attempts; when 30 answers in a row are pending it
    returns [None] after exactly 30 sleeps. *)
Theorem fetch_operation_polls_until_done :
  (forall lro settings w pend b rest,
     Forall pending pend -> (length pend < max_attempts)%nat ->
     is_done b = true ->
     replies w = (map (Reply 200) (pend ++ [b]) ++ rest)%list ->
     fetch_operation lro settings w =
       (inr (Some b),
        set_replies rest
          (add_sent (fetch_endpoint settings, operation_request lro)
             (after_polls (fetch_endpoint settings) (operation_request lro)
                (length pend) (Reply 200 b :: rest) w))))
  /\
  (forall lro settings w pend rest,
     Forall pending pend -> length pend = max_attempts ->
     replies w = (map (Reply 200) pend ++ rest)%list ->
     fetch_operation lro settings w =
       (inr None,
        after_polls (fetch_endpoint settings) (operation_request lro)
          max_attempts rest w)).
Proof.
  split.
  - intros lro settings w pend b rest Hp Hlen Hb Hr.
    unfold fetch_operation.
    rewrite map_app, <- app_assoc in Hr. simpl in Hr.
    rewrite (fetch_loop_pending _ _ pend max_attempts w (Reply 200 b :: rest) Hp); [|lia|exact Hr].
    destruct (max_attempts - length pend)%nat as [|m] eqn:Em; [lia|].
    simpl fetch_loop. unfold bind at 1.
    rewrite (fetch_attempt_reply _ _ _ 200 b rest); [|reflexivity].
    rewrite never_http_error_200, Hb. reflexivity.
  - intros lro settings w pend rest Hp Hlen Hr.
    unfold fetch_operation.
    rewrite (fetch_loop_pending _ _ pend max_attempts w rest Hp); [|lia|exact Hr].
    rewrite Hlen, Nat.sub_diag. reflexivity.
Qed.

Lemma repeat_pending k : Forall pending (repeat pending_body k).
Proof.
  apply Forall_forall. intros x Hx. apply repeat_spec in Hx. subst.
  reflexivity.
Qed.

(** The spec's poller contract: 29 pending answers then a done one give
    that payload after 29 sleeps; 30 pending answers give [None] after 30
    sleeps. *)
Lemma fetch_operation_polls_until_done_witness :
  let w29 := script_world (map (Reply 200) (repeat pending_body 29 ++ [done_body])) in
  let w30 := script_world (map (Reply 200) (repeat pending_body 30)) in
  fst (fetch_operation "op" poll_settings w29) = inr (Some done_body) /\
  sleeps (snd (fetch_operation "op" poll_settings w29)) = repeat 10%Z 29 /\
  fst (fetch_operation "op" poll_settings w30) = inr None /\
  sleeps (snd (fetch_operation "op" poll_settings w30)) = repeat 10%Z 30.
Proof.
  intros w29 w30.
  rewrite (proj1 fetch_operation_polls_until_done "op" poll_settings w29
             (repeat pending_body 29) done_body []
             (repeat_pending 29) ltac:(cbv; lia) eq_refl
             ltac:(rewrite app_nil_r; reflexivity)).
  rewrite (proj2 fetch_operation_polls_until_done "op" poll_settings w30
             (repeat pending_body 30) []
             (repeat_pending 30) eq_refl
             ltac:(rewrite app_nil_r; reflexivity)).
  repeat split.
Defined.

Lemma http_error_range code :
  (400 <= code < 600)%Z -> ((400 <=? code)%Z && (code <? 600)%Z) = true.
Proof. intros [H1 H2]. apply andb_true_intro. split; apply Z.leb_le || apply Z.ltb_lt; lia. Qed.

(** C3 (amended): within the polling loop, an [HTTPError] (a 4xx or 5xx
    status) is logged and polling goes on after the usual sleep; a
    well-formed pending answer also goes on, without logging anything;
    any other exception of the request, such as a connection error,
    propagates out of the poller at once. *)
Theorem fetch_loop_absorbs_only_http_errors :
  forall ep req n w rest,
    (forall code b, (400 <= code < 600)%Z -> replies w = Reply code b :: rest ->
       fetch_loop ep req (S n) w =
         fetch_loop ep req n
           (add_sleep attempt_interval
              (add_error_log (set_replies rest (add_sent (ep, req) w)))))
    /\
    (forall b, is_done b = false -> replies w = Reply 200 b :: rest ->
       fetch_loop ep req (S n) w =
         fetch_loop ep req n
           (add_sleep attempt_interval (set_replies rest (add_sent (ep, req) w))))
    /\
    (forall e, e <> HTTPError -> replies w = Raise e :: rest ->
       fetch_loop ep req (S n) w = (inl e, set_replies rest (add_sent (ep, req) w))).
Proof.
  intros ep req n w rest. repeat split.
  - intros code b Hc Hr. simpl fetch_loop. unfold bind at 1.
    rewrite (fetch_attempt_reply _ _ _ code b rest Hr), (http_error_range _ Hc).
    reflexivity.
  - intros b Hb Hr. simpl fetch_loop. unfold bind at 1.
    rewrite (fetch_attempt_reply _ _ _ 200 b rest Hr), never_http_error_200, Hb.
    reflexivity.
  - intros e He Hr. simpl fetch_loop. unfold bind at 1.
    rewrite (fetch_attempt_raise _ _ _ e rest Hr).
    destruct e; try reflexivity. contradiction.
Qed.

Lemma fetch_loop_absorbs_only_http_errors_witness :
  fetch_loop "ep" "rq" 1 (script_world [Reply 503 pending_body]) =
    fetch_loop "ep" "rq" 0
      (add_sleep attempt_interval
         (add_error_log (set_replies [] (add_sent ("ep", "rq")
            (script_world [Reply 503 pending_body]))))) /\
  fetch_loop "ep" "rq" 1 (script_world [Reply 200 pending_body]) =
    fetch_loop "ep" "rq" 0
      (add_sleep attempt_interval (set_replies [] (add_sent ("ep", "rq")
         (script_world [Reply 200 pending_body])))) /\
  fetch_loop "ep" "rq" 1 (script_world [Raise ConnectionError]) =
    (inl ConnectionError,
     set_replies [] (add_sent ("ep", "rq") (script_world [Raise ConnectionError]))).
Proof.
  split; [|split].
  - apply (proj1 (fetch_loop_absorbs_only_http_errors "ep" "rq" 0
             (script_world [Reply 503 pending_body]) []) 503%Z pending_body);
      [lia | reflexivity].
  - apply (proj1 (proj2 (fetch_loop_absorbs_only_http_errors "ep" "rq" 0
             (script_world [Reply 200 pending_body]) [])) pending_body);
      reflexivity.
  - apply (proj2 (proj2 (fetch_loop_absorbs_only_http_errors "ep" "rq" 0
             (script_world [Raise ConnectionError]) [])) ConnectionError);
      [discriminate | reflexivity].
Defined.

(** C3 (counterexample): a connection error of a status request is a
    transport-level error that [fetch_operation] does not absorb. *)
Lemma fetch_operation_connection_error_escapes :
  fst (fetch_operation "op" poll_settings
         (script_world [Raise ConnectionError])) = inl ConnectionError.
Proof. vm_compute. reflexivity. Qed.

(** C4 (amended): on a 4xx or 5xx answer to the submission,
    [send_request_to_google_api] raises [HTTPError] after a single POST;
    [image_to_video] catches it, logs it and returns [None], having sent
    that single request: no retry, no polling, no sleep. *)
Theorem submission_http_error_not_retried :
  forall payload settings w code b rest,
    (400 <= code < 600)%Z -> replies w = Reply code b :: rest ->
    send_request_to_google_api (prediction_endpoint settings) payload w =
      (inl HTTPError,
       set_replies rest (add_sent (prediction_endpoint settings, payload) w))
    /\
    image_to_video payload settings w =
      (inr None,
       add_error_log
         (set_replies rest (add_sent (prediction_endpoint settings, payload) w))).
Proof.
  intros payload settings w code b rest Hc Hr.
  assert (Hs : send_request_to_google_api (prediction_endpoint settings)
                 payload w =
               (inl HTTPError,
                set_replies rest
                  (add_sent (prediction_endpoint settings, payload) w))).
  { unfold send_request_to_google_api, bind, requests_post.
    rewrite replies_add_sent, Hr. unfold raise_for_status. cbn [fst].
    rewrite (http_error_range _ Hc). reflexivity. }
  split; [exact Hs|].
  unfold image_to_video, try_except, bind at 1. rewrite Hs. reflexivity.
Qed.

Lemma submission_http_error_not_retried_witness :
  image_to_video "payload" poll_settings (script_world [Reply 500 pending_body]) =
    (inr None,
     add_error_log (set_replies [] (add_sent ("https://predict", "payload")
       (script_world [Reply 500 pending_body])))).
Proof.
  apply (proj2 (submission_http_error_not_retried "payload" poll_settings
           (script_world [Reply 500 pending_body]) 500%Z pending_body []
           ltac:(lia) eq_refl)).
Defined.

(** C4 (counterexample): a 500 answer to the submission does not reach
    the caller of [image_to_video] as an error: it returns [None]. *)
Lemma image_to_video_absorbs_http_error :
  fst (image_to_video "payload" poll_settings
         (script_world [Reply 500 pending_body])) = inr None.
Proof. vm_compute. reflexivity. Qed.
End GenerationFacts.

Module BatchFacts.
Import Generation.
Import Fixtures.

(** Iterating the results re-raises the exception of the first failed
    worker, whatever the results of the later ones. *)
Lemma collect_results_first_failure (oks : list (list video_info)) :
  forall acc e rest w,
    collect_results acc ((map inr oks ++ inl e :: rest)%list) w = (inl e, w).
Proof.
  induction oks as [|vs oks IH]; intros acc e rest w; simpl.
  - reflexivity.
  - apply IH.
Qed.

(** C2 (code_bug): the image of item 2 is missing, so
    [download_file_locally] raises [NotFound] inside
    [generate_video_for_item]; nothing catches it there, the worker's
    future stores it, and iterating the results of [executor.map]
    re-raises it: the whole batch fails with [NotFound] although items 1
    and 3 produced their videos. *)
Theorem batch_not_found_aborts_batch :
  fst (executor_map no_gemini "" batch_settings batch_items batch_world) =
    inr [inr [video1]; inl NotFound; inr [video3]] /\
  fst (generate_videos_concurrently no_gemini "" batch_items batch_settings
         batch_world) = inl NotFound.
Proof. split; vm_compute; reflexivity. Qed.
End BatchFacts.

Module EditingFacts.
Import Editing.
Local Open Scope list_scope.
Local Open Scope Q_scope.

Lemma Qlt_bool_true x y : x < y -> Qlt_bool x y = true.
Proof.
  intros H. unfold Qlt_bool. destruct (Qle_bool y x) eqn:E; [|reflexivity].
  apply Qle_bool_iff in E. lra.
Qed.

Lemma Qlt_bool_false x y : y <= x -> Qlt_bool x y = false.
Proof. intros H. unfold Qlt_bool. rewrite (proj2 (Qle_bool_iff _ _) H). reflexivity. Qed.

Lemma Qle_bool_false x y : y < x -> Qle_bool x y = false.
Proof.
  intros H. destruct (Qle_bool x y) eqn:E; [|reflexivity].
  apply Qle_bool_iff in E. lra.
Qed.

Lemma interior_shape {A} (a z : A) (mid : list A) :
  interior (a :: mid ++ [z]) = mid.
Proof. unfold interior. simpl. apply removelast_last. Qed.

Lemma replace_interior_shape {A} (a z : A) (mid new : list A) :
  replace_interior (a :: mid ++ [z]) new = a :: new ++ [z].
Proof.
  unfold replace_interior.
  destruct (mid ++ [z]) as [|x r] eqn:E.
  - destruct mid; discriminate.
  - rewrite <- E, last_last. reflexivity.
Qed.

Ltac qbool :=
  repeat first
    [ rewrite Qlt_bool_true by lra
    | rewrite Qlt_bool_false by lra
    | rewrite Qle_bool_false by lra ].

(** Trimming one interior clip by a share [0 <= s < d]. *)
Lemma trim_one_ok loc s d :
  (loc = "start" \/ loc = "end")%string -> 0 <= s -> s < d ->
  exists d', trim_one loc s d = inr d' /\ d' == d - s.
Proof.
  intros Hloc Hs Hd. unfold trim_one, subclipped.
  destruct Hloc as [-> | ->]; simpl.
  - qbool. eexists; split; [reflexivity|]. ring.
  - qbool. eexists; split; [reflexivity|]. ring.
Qed.

Lemma trim_all_ok loc s (mid : list Q) :
  (loc = "start" \/ loc = "end")%string -> 0 <= s ->
  Forall (fun d => s < d) mid ->
  exists out, trim_all loc s mid = inr out /\
              Forall2 Qeq out (map (fun d => d - s) mid).
Proof.
  intros Hloc Hs Hmid. induction Hmid as [|d mid Hd Hmid IH].
  - exists []. split; [reflexivity | constructor].
  - destruct (trim_one_ok loc s d Hloc Hs Hd) as [d' [E1 E2]].
    destruct IH as [out [E3 E4]].
    exists (d' :: out). simpl. rewrite E1, E3. split; [reflexivity|].
    constructor; assumption.
Qed.

Lemma trim_share_nonneg (x : Q) (k : Z) : 0 <= x -> (0 < k)%Z -> 0 <= x / inject_Z k.
Proof.
  intros Hx Hk. apply Qle_shift_div_l.
  - unfold Qlt. simpl. lia.
  - lra.
Qed.

(** Two clips whose padding-adjusted total reaches the target: the share
    is divided by [2 - 2 = 0]. *)
Lemma trim_clips_two_raises (a b padding output_length : Q) loc :
  output_length <= adjusted_total [a; b] padding ->
  trim_clips [a; b] padding output_length loc true = inl ZeroDivisionError.
Proof.
  intros H. unfold trim_clips. unfold adjusted_total in H. qbool. reflexivity.
Qed.

(** Zero or one clip is returned as it is: there is no interior clip. *)
Lemma trim_clips_short (clips : list Q) padding output_length loc enabled :
  (length clips <= 1)%nat ->
  trim_clips clips padding output_length loc enabled = inr clips.
Proof.
  intros H. destruct clips as [|a [|b r]]; simpl in H; try lia;
    unfold trim_clips; destruct (_ || _); reflexivity.
Qed.

(** C10 (amended): two clips whose padding-adjusted total reaches the
    target raise [ZeroDivisionError] when trimming is enabled; zero or one
    clip is returned unchanged, since [n - 2] is [-2] or [-1] there. *)
Theorem trim_clips_needs_three_clips :
  (forall (a b padding output_length : Q) loc,
     output_length <= adjusted_total [a; b] padding ->
     trim_clips [a; b] padding output_length loc true = inl ZeroDivisionError)
  /\
  (forall (clips : list Q) padding output_length loc enabled,
     (length clips <= 1)%nat ->
     trim_clips clips padding output_length loc enabled = inr clips).
Proof.
  split.
  - intros. apply trim_clips_two_raises. assumption.
  - intros. apply trim_clips_short. assumption.
Qed.

Lemma trim_clips_needs_three_clips_witness :
  trim_clips [5; 5] 0 10 "start" true = inl ZeroDivisionError /\
  trim_clips [10] 0 5 "end" true = inr [10].
Proof.
  split.
  - apply (proj1 trim_clips_needs_three_clips).
    apply Qle_bool_iff. reflexivity.
  - apply (proj2 trim_clips_needs_three_clips). simpl. lia.
Defined.

(** C10 (counterexample): a single clip longer than the target is
    returned as it is; no [ZeroDivisionError] is raised. *)
Lemma trim_clips_one_clip_no_error :
  trim_clips [10] 0 5 "end" true = inr [10].
Proof. reflexivity. Qed.
End EditingFacts.

Module ClipTrimFacts.
Import EditingClips.
Import EditingFacts.
Local Open Scope list_scope.
Local Open Scope Q_scope.

Lemma map_interior {A B} (f : A -> B) (l : list A) :
  map f (Editing.interior l) = Editing.interior (map f l).
Proof.
  unfold Editing.interior. destruct l as [|x r]; [reflexivity|]. simpl.
  induction r as [|y r IH]; [reflexivity|].
  destruct r as [|y' r']; [reflexivity|].
  cbn [removelast map]. cbn [removelast map] in IH. rewrite IH. reflexivity.
Qed.

Lemma last_map' {A B} (f : A -> B) (l : list A) (d : A) :
  last (map f l) (f d) = f (last l d).
Proof.
  induction l as [|x r IH]; [reflexivity|].
  destruct r as [|y r']; [reflexivity|]. exact IH.
Qed.

Lemma map_replace_interior {A B} (f : A -> B) (l new : list A) :
  map f (Editing.replace_interior l new)
    = Editing.replace_interior (map f l) (map f new).
Proof.
  unfold Editing.replace_interior. destruct l as [|x [|y r]]; [reflexivity..|].
  cbn [map]. rewrite map_app. cbn [map]. f_equal. f_equal. f_equal.
  rewrite <- map_cons. symmetry. apply last_map'.
Qed.

Lemma trim_one_duration loc s c :
  match trim_one loc s c with
  | inl e => inl e
  | inr c' => inr (duration c')
  end = Editing.trim_one loc s (duration c).
Proof.
  unfold trim_one, Editing.trim_one, subclipped, Editing.subclipped.
  destruct (String.eqb loc "start"); [|destruct (String.eqb loc "end")];
    [| |reflexivity];
    destruct (Qle_bool _ _); reflexivity.
Qed.

Lemma trim_all_durations loc s clips :
  match trim_all loc s clips with
  | inl e => inl e
  | inr out => inr (map duration out)
  end = Editing.trim_all loc s (map duration clips).
Proof.
  induction clips as [|c r IH]; [reflexivity|]. cbn [trim_all Editing.trim_all map].
  rewrite <- trim_one_duration. destruct (trim_one loc s c) as [e|c']; [reflexivity|].
  rewrite <- IH. destruct (trim_all loc s r); reflexivity.
Qed.

Lemma trim_one_window loc s c :
  (loc = "start" \/ loc = "end")%string -> 0 <= s -> s < duration c ->
  exists c', trim_one loc s c = inr c' /\
    duration c' == duration c - s /\
    (loc = "start" -> offset c' == offset c + s /\
                      offset c' + duration c' == offset c + duration c) /\
    (loc = "end" -> offset c' == offset c /\
                    offset c' + duration c' == offset c + duration c - s).
Proof.
  intros Hloc Hs Hd. destruct c as [o d]. cbn [duration] in Hd.
  unfold trim_one, subclipped. cbn [duration offset].
  destruct Hloc as [-> | ->]; simpl; qbool;
    (eexists; split; [reflexivity|]); cbn [duration offset];
    (split; [lra|]); split; intros E; try discriminate; split; lra.
Qed.

Lemma trim_all_windows loc s (mid : list VideoClip) :
  (loc = "start" \/ loc = "end")%string -> 0 <= s ->
  Forall (fun c => s < duration c) mid ->
  exists out, trim_all loc s mid = inr out /\
    Forall2 (fun c c' =>
      duration c' == duration c - s /\
      (loc = "start" -> offset c' == offset c + s /\
                        offset c' + duration c' == offset c + duration c) /\
      (loc = "end" -> offset c' == offset c /\
                      offset c' + duration c' == offset c + duration c - s))
      mid out.
Proof.
  intros Hloc Hs Hmid. induction Hmid as [|c mid Hc Hmid IH].
  - exists []. split; [reflexivity | constructor].
  - destruct (trim_one_window loc s c Hloc Hs Hc) as [c' [E1 E2]].
    destruct IH as [out [E3 E4]].
    exists (c' :: out). simpl. rewrite E1, E3. split; [reflexivity|].
    constructor; assumption.
Qed.

(** C5 (amended): [trim_clips] returns the clips unchanged when their
    padding-adjusted total is below the target or trimming is disabled.
    Otherwise, for at least three clips, a trim side ["start"] or ["end"]
    and a share [s = (total - target) / (n - 2)] smaller than every
    interior duration, every interior clip loses [s] seconds on that
    side: with ["start"] its window into the source starts [s] later and
    ends where it ended, with ["end"] it starts where it started and ends
    [s] earlier.  The first and the last clip are returned as they are;
    two clips raise [ZeroDivisionError]. *)
Theorem trim_clips_postcondition :
  forall (clips : list VideoClip) padding output_length loc enabled,
    ((adjusted_total clips padding < output_length \/ enabled = false) ->
     trim_clips clips padding output_length loc enabled = inr clips)
    /\
    (forall a mid z,
       clips = a :: mid ++ [z] -> mid <> [] -> enabled = true ->
       output_length <= adjusted_total clips padding ->
       (loc = "start" \/ loc = "end")%string ->
       let s := (adjusted_total clips padding - output_length)
                  / inject_Z (Z.of_nat (length clips) - 2) in
       Forall (fun c => s < duration c) mid ->
       exists out_mid,
         trim_clips clips padding output_length loc enabled
           = inr (a :: out_mid ++ [z]) /\
         Forall2 (fun c c' =>
           duration c' == duration c - s /\
           (loc = "start" -> offset c' == offset c + s /\
                             offset c' + duration c' == offset c + duration c) /\
           (loc = "end" -> offset c' == offset c /\
                           offset c' + duration c' == offset c + duration c - s))
           mid out_mid)
    /\
    (forall a b, clips = [a; b] -> enabled = true ->
       output_length <= adjusted_total clips padding ->
       trim_clips clips padding output_length loc enabled
         = inl ZeroDivisionError).
Proof.
  intros clips padding output_length loc enabled. split; [|split].
  - intros H. unfold trim_clips. unfold adjusted_total, Editing.adjusted_total in H.
    rewrite length_map in H.
    destruct H as [H | ->].
    + qbool. reflexivity.
    + rewrite orb_true_r. reflexivity.
  - intros a mid z -> Hmid -> Hle Hloc s Hs.
    assert (Hk : (0 < Z.of_nat (length (a :: mid ++ [z])) - 2)%Z).
    { rewrite length_cons, length_app. simpl length.
      destruct mid; [contradiction | simpl length; lia]. }
    assert (Hs0 : 0 <= s).
    { apply trim_share_nonneg; [lra | exact Hk]. }
    destruct (trim_all_windows loc s mid Hloc Hs0 Hs) as [out [E1 E2]].
    exists out. split; [|exact E2].
    unfold trim_clips. unfold adjusted_total, Editing.adjusted_total in Hle, s.
    rewrite length_map in Hle.
    qbool. simpl orb.
    unfold Editing.number_of_intros_outros_clips.
    rewrite (proj2 (Z.eqb_neq _ _)) by lia.
    rewrite interior_shape.
    match goal with |- context [trim_all loc ?t mid] =>
      replace t with s by (unfold s; rewrite length_map; reflexivity) end.
    rewrite E1, replace_interior_shape. reflexivity.
  - intros a b -> -> Hle. unfold trim_clips.
    unfold adjusted_total, Editing.adjusted_total in Hle. simpl in Hle |- *.
    qbool. reflexivity.
Qed.

Lemma trim_clips_postcondition_witness :
  exists out_mid,
    trim_clips [mkClip 0 2; mkClip 0 5; mkClip 0 5; mkClip 0 2] 1 8 "start" true
      = inr (mkClip 0 2 :: out_mid ++ [mkClip 0 2]) /\
    Forall2 (fun c c' =>
      duration c' == duration c - 3 / 2 /\
      ("start" = "start" -> offset c' == offset c + 3 / 2 /\
                    offset c' + duration c' == offset c + duration c) /\
      ("start" = "end" -> offset c' == offset c /\
                  offset c' + duration c' == offset c + duration c - 3 / 2))%string
      [mkClip 0 5; mkClip 0 5] out_mid.
Proof.
  destruct (proj1 (proj2 (trim_clips_postcondition
              [mkClip 0 2; mkClip 0 5; mkClip 0 5; mkClip 0 2] 1 8 "start" true))
           (mkClip 0 2) [mkClip 0 5; mkClip 0 5] (mkClip 0 2) eq_refl
           ltac:(discriminate) eq_refl
           ltac:(apply Qle_bool_iff; reflexivity)
           ltac:(left; reflexivity)
           ltac:(repeat constructor; vm_compute; reflexivity))
    as [out_mid [E F]].
  exists out_mid. split; [exact E|].
  assert (Hs : (adjusted_total [mkClip 0 2; mkClip 0 5; mkClip 0 5; mkClip 0 2] 1 - 8)
               / inject_Z (Z.of_nat 4 - 2) == 3 / 2) by reflexivity.
  revert F. apply Forall2_impl. intros c c' [H1 [H2 H3]].
  cbn [length] in H1, H2, H3. rewrite Hs in H1, H2, H3.
  split; [exact H1 | split; [exact H2 | exact H3]].
Defined.

(** C5 (counterexample): with trimming disabled an over-long sequence is
    not trimmed, and two clips whose total equals the target raise
    [ZeroDivisionError] instead of being returned unchanged. *)
Lemma trim_clips_not_always_as_claimed :
  trim_clips [mkClip 0 5; mkClip 0 6] 0 10 "end" false
    = inr [mkClip 0 5; mkClip 0 6] /\
  trim_clips [mkClip 0 5; mkClip 0 5] 0 10 "end" true = inl ZeroDivisionError.
Proof. split; reflexivity. Qed.
(** What [trim_clips] does to the durations, and whether it fails,
    depends on the durations of the clips alone: the positions of their
    windows in the source never matter.  So the duration model
    [Editing.trim_clips] is exactly the durations of this one. *)
Theorem trim_clips_durations :
  forall (clips : list VideoClip) padding output_length loc enabled,
    match trim_clips clips padding output_length loc enabled with
    | inl e => inl e
    | inr out => inr (map duration out)
    end = Editing.trim_clips (map duration clips) padding output_length loc
            enabled.
Proof.
  intros clips padding output_length loc enabled.
  unfold trim_clips, Editing.trim_clips. rewrite length_map.
  destruct (_ || _); [reflexivity|].
  destruct (Z.eqb _ _); [reflexivity|].
  rewrite <- map_interior, <- trim_all_durations.
  destruct (trim_all _ _ _) as [e|out]; [reflexivity|].
  rewrite map_replace_interior. reflexivity.
Qed.
End ClipTrimFacts.

Module ResolutionFacts.
Import Editing.

(** C6: [set_target_resolution] keeps the first clip's orientation: a
    portrait clip gets the desired pair smaller-first, a landscape clip
    larger-first, a square clip the smaller dimension twice; a 1080x1920
    clip with desired (1280, 720) gets (720, 1280). *)
Theorem set_target_resolution_orientation :
  (forall cw ch rw rh : Z,
     ((cw < ch)%Z ->
      set_target_resolution (cw, ch) rw rh = (Z.min rw rh, Z.max rw rh))
     /\
     ((ch < cw)%Z ->
      set_target_resolution (cw, ch) rw rh = (Z.max rw rh, Z.min rw rh))
     /\
     (cw = ch ->
      set_target_resolution (cw, ch) rw rh = (Z.min rw rh, Z.min rw rh)))
  /\ set_target_resolution (1080, 1920)%Z 1280 720 = (720, 1280)%Z.
Proof.
  split; [|reflexivity].
  intros cw ch rw rh. unfold set_target_resolution.
  rewrite !Z.gtb_ltb. repeat split; intros H.
  - destruct (Z.ltb_spec cw ch); [|lia].
    destruct (Z.ltb_spec rh rw); f_equal; lia.
  - destruct (Z.ltb_spec cw ch); [lia|].
    destruct (Z.ltb_spec ch cw); [|lia].
    destruct (Z.ltb_spec rh rw); f_equal; lia.
  - subst. rewrite Z.ltb_irrefl. f_equal; lia.
Qed.

Lemma set_target_resolution_orientation_witness :
  set_target_resolution (1920, 1080)%Z 720 1280 = (1280, 720)%Z /\
  set_target_resolution (500, 500)%Z 1280 720 = (720, 720)%Z.
Proof.
  split.
  - rewrite (proj1 (proj2 (proj1 set_target_resolution_orientation
                              1920%Z 1080%Z 720%Z 1280%Z)) ltac:(lia)).
    reflexivity.
  - rewrite (proj2 (proj2 (proj1 set_target_resolution_orientation
                              500%Z 500%Z 1280%Z 720%Z)) eq_refl).
    reflexivity.
Defined.
End ResolutionFacts.

Module SideFacts.
Import Editing.
Import Fixtures.

(** C8: [get_opposite_side] maps left to right and top to bottom and
    back, is its own inverse on the four sides, and raises [ValueError]
    on every other string. *)
Theorem get_opposite_side_involution :
  (forall s, In s sides ->
     match get_opposite_side s with
     | inr o => get_opposite_side o = inr s
     | inl _ => False
     end)
  /\ get_opposite_side "left" = inr "right"
  /\ get_opposite_side "right" = inr "left"
  /\ get_opposite_side "top" = inr "bottom"
  /\ get_opposite_side "bottom" = inr "top"
  /\ (forall s, ~ In s sides -> get_opposite_side s = inl ValueError).
Proof.
  repeat split; try reflexivity.
  - intros s Hs. simpl in Hs.
    destruct Hs as [<- | [<- | [<- | [<- | []]]]]; reflexivity.
  - intros s Hs. unfold get_opposite_side.
    destruct (String.eqb_spec s "left");
      [subst; exfalso; apply Hs; simpl; tauto|].
    destruct (String.eqb_spec s "right");
      [subst; exfalso; apply Hs; simpl; tauto|].
    destruct (String.eqb_spec s "top");
      [subst; exfalso; apply Hs; simpl; tauto|].
    destruct (String.eqb_spec s "bottom");
      [subst; exfalso; apply Hs; simpl; tauto|].
    reflexivity.
Qed.

Lemma get_opposite_side_involution_witness :
  get_opposite_side "bottom" = inr "top" /\
  get_opposite_side "diagonal" = inl ValueError.
Proof.
  split.
  - exact (proj1 get_opposite_side_involution "top"
             ltac:(simpl; tauto)).
  - apply (proj2 (proj2 (proj2 (proj2 (proj2 get_opposite_side_involution)))))
      . simpl. intros H. repeat destruct H as [H | H]; try discriminate.
    exact H.
Defined.
End SideFacts.

Module AudioFacts.
Import VideoEditing.
Import Fixtures.
Local Open Scope Q_scope.

(** C7 (amended): an overlay whose duration is set and non-zero keeps it;
    one whose duration is [None] or [0] gets the gap from its start to the
    next overlay's start, or to the end of the host video for the last
    overlay; start times [0; 5; 12] without durations on a 20 s host
    resolve to [5; 7; 8]. *)
Theorem calculate_audio_duration_resolution :
  (forall (audio_inputs : list AudioInput) video_duration i a,
     nth_error audio_inputs i = Some a ->
     (forall d, duration a = Some d -> ~ d == 0 ->
        calculate_audio_duration i audio_inputs video_duration = inr d)
     /\
     ((duration a = None \/ exists d, duration a = Some d /\ d == 0) ->
        calculate_audio_duration i audio_inputs video_duration =
          inr ((match nth_error audio_inputs (S i) with
                | Some b => start_time b
                | None => video_duration
                end) - start_time a)))
  /\
  resolved_durations
    [overlay "a.mp3" 0 None; overlay "b.mp3" 5 None; overlay "c.mp3" 12 None]
    20 = [inr 5; inr 7; inr 8].
Proof.
  split; [|reflexivity].
  intros audio_inputs video_duration i a Hi.
  assert (Hlen : (i < length audio_inputs)%nat).
  { apply nth_error_Some. rewrite Hi. discriminate. }
  unfold calculate_audio_duration. rewrite Hi. split.
  - intros d Hd Hnz. rewrite Hd. unfold truthy.
    destruct (Qeq_bool d 0) eqn:E.
    + apply Qeq_bool_iff in E. contradiction.
    + reflexivity.
  - intros Hnone.
    assert (Ht : truthy (duration a) = false).
    { destruct Hnone as [-> | [d [-> Hd]]]; [reflexivity|].
      unfold truthy. rewrite (proj2 (Qeq_bool_iff d 0) Hd). reflexivity. }
    rewrite Ht. simpl negb. cbv iota beta.
    destruct (Nat.ltb_spec i (length audio_inputs - 1)).
    + destruct (nth_error audio_inputs (S i)) eqn:E; [reflexivity|].
      apply nth_error_None in E. lia.
    + assert (E : nth_error audio_inputs (S i) = None).
      { apply nth_error_None. lia. }
      rewrite E. reflexivity.
Qed.

Lemma calculate_audio_duration_resolution_witness :
  calculate_audio_duration 1%nat mixed_overlays 20 = inr 3 /\
  calculate_audio_duration 2%nat mixed_overlays 20 = inr (20 - 12).
Proof.
  split.
  - apply (proj1 (proj1 calculate_audio_duration_resolution mixed_overlays 20 1%nat
                    (overlay "b.mp3" 5 (Some 3)) eq_refl) 3 eq_refl).
    intros H. discriminate H.
  - apply (proj2 (proj1 calculate_audio_duration_resolution mixed_overlays 20 2%nat
                    (overlay "c.mp3" 12 None) eq_refl)).
    left. reflexivity.
Defined.

(** C7 (counterexample): an explicit duration of [0.0] is falsy, so it is
    replaced by the gap to the next overlay (5 s) instead of being kept. *)
Lemma explicit_zero_duration_not_kept :
  calculate_audio_duration 0%nat
    [overlay "a.mp3" 0 (Some 0); overlay "b.mp3" 5 None] 20 = inr 5.
Proof. reflexivity. Qed.
End AudioFacts.

Module HexFacts.
Import Image.

(** C9: ["#1a2b3c"] converts to (26, 43, 60), and every color string of
    5 or 7 characters, counted after its leading ['#'] (as in ["FF000"],
    ["#FF000"] or ["#FF00001"]), raises [ValueError]. *)
Theorem hex_to_rgb_examples :
  hex_to_rgb "#1a2b3c" = inr (26, 43, 60)%Z /\
  (forall s, (String.length (lstrip_hash s) = 5 \/
              String.length (lstrip_hash s) = 7)%nat ->
     hex_to_rgb s = inl ValueError).
Proof.
  split; [reflexivity|].
  intros s Hs. unfold hex_to_rgb.
  destruct Hs as [Hs | Hs]; rewrite Hs; reflexivity.
Qed.

Lemma hex_to_rgb_examples_witness :
  hex_to_rgb "1a2b3" = inl ValueError /\
  hex_to_rgb "#1a2b3c4" = inl ValueError.
Proof.
  split; apply (proj2 hex_to_rgb_examples); simpl; [left | right];
    reflexivity.
Defined.

End HexFacts.

Module GenerationBounds.
Import Generation.
Import Fixtures.

(** One attempt sends one status request and does not sleep. *)
Lemma fetch_attempt_effect ep req w :
  sent (snd (fetch_attempt ep req w)) = (sent w ++ [(ep, req)])%list /\
  sleeps (snd (fetch_attempt ep req w)) = sleeps w.
Proof.
  unfold fetch_attempt, try_except, send_request_to_google_api, bind,
    requests_post. rewrite GenerationFacts.replies_add_sent.
  destruct (replies w) as [|[e|code b] rest].
  - split; reflexivity.
  - destruct (is_http_error e); split; reflexivity.
  - unfold raise_for_status. cbn [fst snd].
    destruct ((400 <=? code)%Z && (code <? 600)%Z); [split; reflexivity|].
    unfold ret. destruct (is_done b); split; reflexivity.
Qed.

Lemma fetch_loop_effect ep req n :
  forall w, exists k j, (j <= k <= n)%nat /\
    sent (snd (fetch_loop ep req n w)) = (sent w ++ repeat (ep, req) k)%list /\
    sleeps (snd (fetch_loop ep req n w)) =
      (sleeps w ++ repeat attempt_interval j)%list.
Proof.
  induction n as [|n IH]; intros w.
  - exists 0%nat, 0%nat. simpl. rewrite !app_nil_r. repeat split; lia.
  - destruct (fetch_attempt_effect ep req w) as [Hs Hz].
    simpl fetch_loop. unfold bind.
    destruct (fetch_attempt ep req w) as [[e|[b|]] w1] eqn:E; cbn [snd] in Hs, Hz.
    + exists 1%nat, 0%nat. simpl. rewrite Hs, Hz, app_nil_r.
      repeat split; lia.
    + exists 1%nat, 0%nat. simpl. rewrite Hs, Hz, app_nil_r.
      repeat split; lia.
    + unfold sleep, modify. simpl.
      destruct (IH (add_sleep attempt_interval w1)) as [k [j [Hb [H1 H2]]]].
      exists (S k), (S j). rewrite H1, H2. simpl. rewrite Hs, Hz.
      rewrite <- !app_assoc. repeat split; lia.
Qed.

(** [fetch_operation], whatever the endpoint answers or raises, sends at
    most [max_attempts] (30) requests, all to the fetch endpoint with the
    same operation request, and sleeps 10 s at most once per request. *)
Theorem fetch_operation_bounded :
  forall lro settings w, exists k j,
    (j <= k <= max_attempts)%nat /\
    sent (snd (fetch_operation lro settings w)) =
      (sent w ++ repeat (fetch_endpoint settings, operation_request lro) k)%list /\
    sleeps (snd (fetch_operation lro settings w)) =
      (sleeps w ++ repeat 10%Z j)%list.
Proof.
  intros lro settings w. apply fetch_loop_effect.
Qed.

Lemma send_request_effect ep data w :
  sent (snd (send_request_to_google_api ep data w)) = (sent w ++ [(ep, data)])%list /\
  sleeps (snd (send_request_to_google_api ep data w)) = sleeps w.
Proof.
  unfold send_request_to_google_api, bind, requests_post.
  rewrite GenerationFacts.replies_add_sent.
  destruct (replies w) as [|[e|code b] rest]; [split; reflexivity..|].
  unfold raise_for_status. cbn [fst snd].
  destruct ((400 <=? code)%Z && (code <? 600)%Z); split; reflexivity.
Qed.

(** The [except] clause of [image_to_video] leaves requests and sleeps
    as they are. *)
Lemma handler_effect (e : exn) w :
  sent (snd ((if is_http_error e then log_error ;;; ret (@None body) else raise e) w))
    = sent w /\
  sleeps (snd ((if is_http_error e then log_error ;;; ret (@None body) else raise e) w))
    = sleeps w.
Proof. destruct (is_http_error e); split; reflexivity. Qed.

(** [image_to_video] sends one submission to the prediction endpoint and
    then at most 30 status requests for one operation name, sleeping at
    most once per status request; it never sends anything else. *)
Theorem image_to_video_bounded :
  forall payload settings w, exists name k j,
    (j <= k <= max_attempts)%nat /\
    sent (snd (image_to_video payload settings w)) =
      (sent w ++ [(prediction_endpoint settings, payload)] ++
       repeat (fetch_endpoint settings, operation_request name) k)%list /\
    sleeps (snd (image_to_video payload settings w)) =
      (sleeps w ++ repeat 10%Z j)%list.
Proof.
  intros payload settings w.
  destruct (send_request_effect (prediction_endpoint settings) payload w)
    as [Hs Hz].
  remember (image_to_video payload settings w) as p eqn:Ep. revert Ep.
  unfold image_to_video, try_except, bind at 1.
  destruct (send_request_to_google_api (prediction_endpoint settings) payload w)
    as [[e|resp] w1] eqn:E; cbn [snd] in Hs, Hz; intros Ep; subst p.
  - exists "", 0%nat, 0%nat. destruct (handler_effect e w1) as [H1 H2].
    rewrite H1, H2, Hs, Hz. simpl. rewrite !app_nil_r. repeat split; lia.
  - destruct (b_name resp) as [name|].
    + destruct (fetch_operation_bounded name settings w1) as [k [j [Hb [H1 H2]]]].
      exists name, k, j.
      destruct (fetch_operation name settings w1) as [[e|r] w2] eqn:F;
        cbn [snd] in H1, H2.
      * destruct (handler_effect e w2) as [H3 H4].
        rewrite H3, H4, H1, H2, Hs, Hz, <- app_assoc. repeat split; lia.
      * cbn [snd]. rewrite H1, H2, Hs, Hz, <- app_assoc. repeat split; lia.
    + exists "", 0%nat, 0%nat. simpl. rewrite Hs, Hz.
      rewrite !app_nil_r. repeat split; lia.
Qed.

(** A submission answered with a status outside 400..599 (a 1xx or a 3xx
    redirect, say) is not an error for [send_request_to_google_api]; if the
    body has no ['name'], the [KeyError] of [response['name']] is not an
    [HTTPError], so it escapes [image_to_video] after that single POST. *)
Theorem non_error_status_without_name_raises_key_error :
  forall payload settings w code b rest,
    ~ (400 <= code < 600)%Z -> b_name b = None ->
    replies w = Reply code b :: rest ->
    send_request_to_google_api (prediction_endpoint settings) payload w =
      (inr b, set_replies rest (add_sent (prediction_endpoint settings, payload) w))
    /\
    image_to_video payload settings w =
      (inl KeyError,
       set_replies rest (add_sent (prediction_endpoint settings, payload) w)).
Proof.
  intros payload settings w code b rest Hc Hn Hr.
  assert (Hs : send_request_to_google_api (prediction_endpoint settings) payload w =
      (inr b, set_replies rest (add_sent (prediction_endpoint settings, payload) w))).
  { unfold send_request_to_google_api, bind, requests_post.
    rewrite GenerationFacts.replies_add_sent, Hr. unfold raise_for_status.
    cbn [fst snd].
    destruct ((400 <=? code)%Z && (code <? 600)%Z) eqn:E.
    - apply andb_prop in E. destruct E as [E1 E2].
      apply Z.leb_le in E1. apply Z.ltb_lt in E2. exfalso. apply Hc. lia.
    - reflexivity. }
  split; [exact Hs|].
  unfold image_to_video, try_except, bind at 1. rewrite Hs. rewrite Hn.
  reflexivity.
Qed.

Lemma non_error_status_without_name_raises_key_error_witness :
  image_to_video "payload" poll_settings (script_world [Reply 302 pending_body]) =
    (inl KeyError,
     set_replies [] (add_sent ("https://predict", "payload")
       (script_world [Reply 302 pending_body]))).
Proof.
  apply (proj2 (non_error_status_without_name_raises_key_error "payload"
           poll_settings (script_world [Reply 302 pending_body]) 302%Z
           pending_body [] ltac:(lia) eq_refl eq_refl)).
Defined.

(** When the operation is accepted but its 30 status answers are all
    pending, [image_to_video] returns [None] and
    [generate_videos_and_download] fails with [TypeError] on
    [None['response']], having downloaded nothing. *)
Theorem poll_timeout_raises_type_error :
  forall veo_request settings prefix product w b0 name pend rest,
    b_name b0 = Some name ->
    Forall pending pend -> length pend = max_attempts ->
    replies w = (Reply 200 b0 :: map (Reply 200) pend ++ rest)%list ->
    fst (generate_videos_and_download veo_request settings prefix product w)
      = inl TypeError /\
    local_files (snd (generate_videos_and_download veo_request settings prefix
                        product w)) = local_files w.
Proof.
  intros veo_request settings prefix product w b0 name pend rest Hn Hp Hl Hr.
  set (w1 := set_replies (map (Reply 200) pend ++ rest)%list
               (add_sent (prediction_endpoint settings,
                          to_api_payload veo_request) w)).
  assert (Hs : send_request_to_google_api (prediction_endpoint settings)
                 (to_api_payload veo_request) w = (inr b0, w1)).
  { unfold send_request_to_google_api, bind, requests_post.
    rewrite GenerationFacts.replies_add_sent, Hr. reflexivity. }
  assert (Hf : fetch_operation name settings w1 =
                 (inr None, after_polls (fetch_endpoint settings)
                    (operation_request name) (length pend) rest w1)).
  { unfold fetch_operation.
    rewrite (GenerationFacts.fetch_loop_pending _ _ pend max_attempts w1 rest Hp);
      [| lia | reflexivity].
    rewrite Hl, Nat.sub_diag. reflexivity. }
  assert (Hg : generate_videos_and_download veo_request settings prefix product w
               = (inl TypeError, after_polls (fetch_endpoint settings)
                    (operation_request name) (length pend) rest w1)).
  { unfold generate_videos_and_download, image_to_video, try_except, bind.
    rewrite Hs. cbv beta iota. rewrite Hn. rewrite Hf. reflexivity. }
  rewrite Hg. split; reflexivity.
Qed.

Lemma poll_timeout_raises_type_error_witness :
  fst (generate_videos_and_download (mkVeoRequest "p" "gs://b/i.png" "gs://b/o/")
         poll_settings "ad" [] 
         (script_world (Reply 200 (mkBody None (Some "op") None 0)
                        :: map (Reply 200) (repeat pending_body 30))))
    = inl TypeError.
Proof.
  apply (poll_timeout_raises_type_error
           (mkVeoRequest "p" "gs://b/i.png" "gs://b/o/") poll_settings "ad" []
           (script_world (Reply 200 (mkBody None (Some "op") None 0)
                          :: map (Reply 200) (repeat pending_body 30)))
           (mkBody None (Some "op") None 0) "op" (repeat pending_body 30) []
           eq_refl (GenerationFacts.repeat_pending 30) eq_refl).
  rewrite app_nil_r. reflexivity.
Defined.

Lemma collect_results_all_ok (vss : list (list video_info)) :
  forall acc w, collect_results acc (map inr vss) w = (inr (acc ++ concat vss)%list, w).
Proof.
  induction vss as [|vs vss IH]; intros acc w; simpl.
  - rewrite app_nil_r. reflexivity.
  - rewrite IH, app_assoc. reflexivity.
Qed.

Section Batch.
Variable gem : string -> string -> M string.
Variable wy : string.

(** When every worker succeeds, [generate_videos_concurrently] returns
    the video lists of the items concatenated in input order, whatever
    order the workers finish in. *)
Theorem batch_success_concatenates_in_order :
  forall items settings w vss w',
    executor_map gem wy settings items w = (inr (map inr vss), w') ->
    generate_videos_concurrently gem wy items settings w = (inr (concat vss), w').
Proof.
  intros items settings w vss w' H.
  unfold generate_videos_concurrently, bind. rewrite H.
  apply collect_results_all_ok.
Qed.

(** A worker that fails makes the whole batch fail with its exception,
    whatever the workers after it return. *)
Theorem batch_first_failure_raises :
  forall items settings w oks e rest w',
    executor_map gem wy settings items w = (inr (map inr oks ++ inl e :: rest)%list, w') ->
    generate_videos_concurrently gem wy items settings w = (inl e, w').
Proof.
  intros items settings w oks e rest w' H.
  unfold generate_videos_concurrently, bind. rewrite H.
  apply BatchFacts.collect_results_first_failure.
Qed.

(** Items without ['recolored_image_uri'] are skipped: a batch made only
    of them returns [[]] and touches neither the network nor storage. *)
Theorem batch_of_items_without_image :
  forall items settings w,
    Forall (fun it => dict_get "recolored_image_uri" it = None) items ->
    generate_videos_concurrently gem wy items settings w = (inr [], w).
Proof.
  intros items settings w H.
  assert (Hm : executor_map gem wy settings items w =
                 (inr (map inr (map (fun _ => []) items)), w)).
  { induction H as [|it items Hit H IH]; [reflexivity|].
    simpl. unfold bind at 1, run_future, generate_video_for_item.
    rewrite Hit. unfold ret at 1. cbn beta iota.
    unfold bind. rewrite IH. reflexivity. }
  rewrite (batch_success_concatenates_in_order _ _ _ _ _ Hm).
  assert (Hc : concat (map (fun _ : dict => @nil video_info) items) = []).
  { clear. induction items; simpl; auto. }
  rewrite Hc. reflexivity.
Qed.
End Batch.

Lemma batch_success_concatenates_in_order_witness :
  generate_videos_concurrently no_gemini "" [batch_item "P1" "gs://bkt/img1.png"]
    batch_settings batch_world =
  (inr [video1], snd (executor_map no_gemini "" batch_settings
                        [batch_item "P1" "gs://bkt/img1.png"] batch_world)).
Proof.
  apply (batch_success_concatenates_in_order no_gemini "" _ _ _ [[video1]]).
  vm_compute. reflexivity.
Defined.

Lemma batch_first_failure_raises_witness :
  generate_videos_concurrently no_gemini "" batch_items batch_settings batch_world =
  (inl NotFound, snd (executor_map no_gemini "" batch_settings batch_items
                        batch_world)).
Proof.
  apply (batch_first_failure_raises no_gemini "" _ _ _ [[video1]] NotFound
           [inr [video3]]).
  vm_compute. reflexivity.
Defined.

Lemma batch_of_items_without_image_witness :
  generate_videos_concurrently no_gemini "" [[("title", "P1")]; []]
    batch_settings batch_world = (inr [], batch_world).
Proof.
  apply batch_of_items_without_image. repeat constructor.
Defined.
End GenerationBounds.

Module StorageFacts.
Import Generation.

Lemma string_app_assoc (a b c : string) : (a ++ b) ++ c = a ++ (b ++ c).
Proof. induction a as [|x a IH]; simpl; [reflexivity | rewrite IH; reflexivity]. Qed.

Lemma last_segment_app (s t acc : string) :
  last_segment_acc (s ++ t) acc = last_segment_acc t (last_segment_acc s acc).
Proof.
  revert acc. induction s as [|c s IH]; intros acc; simpl; [reflexivity|].
  destruct (Ascii.eqb c "/"%char); apply IH.
Qed.

Lemma last_segment_no_slash (f acc : string) :
  ~ In "/"%char (list_ascii_of_string f) -> last_segment_acc f acc = acc ++ f.
Proof.
  revert acc. induction f as [|c f IH]; intros acc Hf; simpl.
  - induction acc as [|x acc IHa]; simpl; [reflexivity | rewrite <- IHa; reflexivity].
  - simpl in Hf.
    destruct (Ascii.eqb c "/"%char) eqn:E.
    + apply Ascii.eqb_eq in E. exfalso. apply Hf. left. exact E.
    + rewrite IH by tauto. rewrite string_app_assoc. reflexivity.
Qed.

(** [get_file_name_from_gcs_url] returns what follows the last ['/']: a
    name [f] without ['/'] after any prefix and a ['/'], and [""] for a
    URI ending in ['/']. *)
Theorem get_file_name_from_gcs_url_last_segment :
  forall d f, ~ In "/"%char (list_ascii_of_string f) ->
    get_file_name_from_gcs_url (d ++ "/" ++ f) = f /\
    get_file_name_from_gcs_url (d ++ "/") = "".
Proof.
  intros d f Hf. unfold get_file_name_from_gcs_url. split.
  - rewrite last_segment_app. simpl. apply last_segment_no_slash. exact Hf.
  - rewrite last_segment_app. reflexivity.
Qed.

Lemma get_file_name_from_gcs_url_last_segment_witness :
  get_file_name_from_gcs_url "gs://bkt/out/v1.mp4" = "v1.mp4".
Proof.
  apply (proj1 (get_file_name_from_gcs_url_last_segment "gs://bkt/out" "v1.mp4"
                  ltac:(simpl; intuition discriminate))).
Defined.

(** [download_file_locally] on an existing object returns a local path
    containing ["/content"] and records that file; on a missing object it
    raises [NotFound] and changes nothing. *)
Theorem download_file_locally_path :
  forall uri file_name w,
    (existsb (String.eqb uri) (blobs w) = true ->
     exists p, download_file_locally uri file_name w = (inr p, add_local_file p w)
               /\ String.index 0 tmp_string p <> None)
    /\
    (existsb (String.eqb uri) (blobs w) = false ->
     download_file_locally uri file_name w = (inl NotFound, w)).
Proof.
  intros uri file_name w. split; intros H; unfold download_file_locally; rewrite H.
  - set (fname := match file_name with
                  | Some f => if String.eqb f "" then get_file_name_from_gcs_url uri else f
                  | None => get_file_name_from_gcs_url uri
                  end).
    destruct (String.index 0 tmp_string fname) as [m|] eqn:E.
    + exists fname. split; [reflexivity | rewrite E; discriminate].
    + eexists. split; [reflexivity|]. unfold tmp_string. simpl. discriminate.
  - reflexivity.
Qed.

Lemma download_file_locally_path_witness :
  exists p, download_file_locally "gs://b/i.png" None
              (mkWorld [] [] [] 0 ["gs://b/i.png"] []) =
            (inr p, add_local_file p (mkWorld [] [] [] 0 ["gs://b/i.png"] [])) /\
            String.index 0 tmp_string p <> None.
Proof.
  apply (proj1 (download_file_locally_path "gs://b/i.png" None
                  (mkWorld [] [] [] 0 ["gs://b/i.png"] []))).
  reflexivity.
Defined.
End StorageFacts.

Module AssemblyFacts.
Import Editing.
Import Assembly.
Import Fixtures.
Local Open Scope list_scope.
Local Open Scope Q_scope.

Lemma trim_all_length loc s (clips out : list Q) :
  trim_all loc s clips = inr out -> length out = length clips.
Proof.
  revert out. induction clips as [|d r IH]; intros out H; simpl in H.
  - injection H as <-. reflexivity.
  - destruct (trim_one loc s d) as [e|d']; [discriminate|].
    destruct (trim_all loc s r) as [e|r'] eqn:E; [discriminate|].
    injection H as <-. simpl. rewrite (IH r' eq_refl). reflexivity.
Qed.

Lemma length_removelast_last (l : list Q) (x : Q) :
  l <> [] -> S (length (removelast l)) = length l.
Proof.
  intros H. rewrite (app_removelast_last x H) at 2.
  rewrite length_app. simpl. lia.
Qed.

(** Whatever it trims, [trim_clips] keeps the first and the last clip of
    a list of two or more clips, and the number of clips. *)
Lemma trim_clips_keeps_ends (a : Q) (rest : list Q) padding output_length loc
    enabled out :
  rest <> [] ->
  trim_clips (a :: rest) padding output_length loc enabled = inr out ->
  exists mid, out = a :: mid ++ [last rest a] /\
              S (length mid) = length rest.
Proof.
  intros Hr H. unfold trim_clips in H.
  destruct (_ || _).
  - injection H as <-. exists (removelast rest). split.
    + f_equal. apply app_removelast_last. exact Hr.
    + exact (length_removelast_last _ a Hr).
  - destruct (Z.eqb _ 0); [discriminate|].
    destruct (trim_all _ _ _) as [e|trimmed] eqn:E; [discriminate|].
    injection H as <-. apply trim_all_length in E.
    unfold interior in E. simpl tl in E.
    exists trimmed. destruct rest as [|x r]; [contradiction|].
    split; [reflexivity|]. rewrite E. exact (length_removelast_last _ a Hr).
Qed.

(** [merge_arrays] followed by [trim_clips], as the assembly of the app
    does: trimming never changes the first intro/outro clip nor the last
    one, and the clips between them are exactly as many as the main
    clips. *)
Theorem merge_then_trim_keeps_intro_outro :
  forall (first : Q) io_rest main padding output_length loc enabled out,
    trim_clips (merge_arrays (first :: io_rest) main) padding output_length
      loc enabled = inr out ->
    exists mid, out = first :: mid ++ [last (first :: io_rest) first] /\
                length mid = length main.
Proof.
  intros first io_rest main padding output_length loc enabled out H.
  unfold merge_arrays in H. simpl app in H.
  destruct (trim_clips_keeps_ends first (main ++ [last (first :: io_rest) first])
              padding output_length loc enabled out) as [mid [E L]].
  - destruct main; discriminate.
  - exact H.
  - exists mid. rewrite last_last in E. split; [exact E|].
    rewrite length_app in L. simpl in L. lia.
Qed.

Lemma merge_then_trim_keeps_intro_outro_witness :
  exists mid, merged_trimmed = 2 :: mid ++ [3] /\ length mid = 2%nat.
Proof.
  apply (merge_then_trim_keeps_intro_outro 2 [3] [5; 5] 1 8 "end" true
           merged_trimmed).
  vm_compute. reflexivity.
Defined.

Lemma inject_Z_succ (n : nat) :
  inject_Z (Z.of_nat (S n)) == inject_Z (Z.of_nat n) + 1.
Proof. rewrite Nat2Z.inj_succ, <- Z.add_1_r, inject_Z_plus. reflexivity. Qed.

Lemma adjusted_total_cons (d0 : Q) (rest : list Q) padding :
  adjusted_total (d0 :: rest) padding ==
    d0 + sum_durations rest - padding * inject_Z (Z.of_nat (length rest)).
Proof.
  unfold adjusted_total. simpl sum_durations.
  replace (Z.of_nat (length (d0 :: rest)) - 1)%Z with (Z.of_nat (length rest))
    by (simpl length; lia).
  lra.
Qed.

Lemma max_end_right x y : x <= y -> max_end x y = y.
Proof. intros H. unfold max_end. rewrite (proj2 (Qle_bool_iff _ _) H). reflexivity. Qed.

(** The running maximum over the layers of [fade_in]'s loop. *)
Lemma chain_fold (padding : Q) (clips : list Q) :
  Forall (fun d => padding <= d) clips ->
  forall idx m, m == idx + padding ->
  fold_left (fun m l' => max_end m (l_end l')) (chain_layers idx padding clips) m
    == m + sum_durations clips - padding * inject_Z (Z.of_nat (length clips)).
Proof.
  induction 1 as [|d r Hd Hr IH]; intros idx m Hm.
  - cbn [chain_layers fold_left sum_durations length Z.of_nat].
    change (inject_Z 0) with 0. lra.
  - cbn [chain_layers fold_left].
    rewrite max_end_right by (unfold l_end; cbn [l_start l_duration]; lra).
    rewrite (IH (idx + (d - padding)) (l_end (mkLayer idx d)))
      by (unfold l_end; cbn [l_start l_duration]; lra).
    unfold l_end. cbn [l_start l_duration sum_durations length].
    rewrite inject_Z_succ. lra.
Qed.

Lemma compose_chain_total (padding : Q) (rest : list Q) :
  Forall (fun d => padding <= d) rest ->
  forall composed, compose_chain composed padding rest
    == composed + sum_durations rest - padding * inject_Z (Z.of_nat (length rest)).
Proof.
  induction 1 as [|d r Hd Hr IH]; intros composed.
  - cbn [compose_chain sum_durations length Z.of_nat].
    change (inject_Z 0) with 0. lra.
  - cbn [compose_chain]. rewrite max_end_right by lra.
    rewrite IH. cbn [sum_durations length]. rewrite inject_Z_succ. lra.
Qed.

Lemma fade_layers_total (d0 padding : Q) rest :
  Forall (fun d => padding <= d) rest ->
  composite_duration (mkLayer 0 d0 :: chain_layers (d0 - padding) padding rest)
    == adjusted_total (d0 :: rest) padding.
Proof.
  intros H. unfold composite_duration.
  rewrite (chain_fold padding rest H (d0 - padding))
    by (unfold l_end; cbn [l_start l_duration]; lra).
  rewrite adjusted_total_cons. unfold l_end. cbn [l_start l_duration]. lra.
Qed.

Lemma SlideIn_apply_ok side l :
  In side ["left"; "right"; "top"; "bottom"] -> SlideIn_apply side l = inr l.
Proof.
  intros H. unfold SlideIn_apply.
  simpl in H. destruct H as [<- | [<- | [<- | [<- | []]]]]; reflexivity.
Qed.

Lemma slide_all_ok side ls :
  In side ["left"; "right"; "top"; "bottom"] -> slide_all side ls = inr ls.
Proof.
  intros H. induction ls as [|l r IH]; [reflexivity|].
  simpl. rewrite (SlideIn_apply_ok side l H), IH. reflexivity.
Qed.

Lemma slide_all_inv side ls ls' : slide_all side ls = inr ls' -> ls' = ls.
Proof.
  revert ls'. induction ls as [|l r IH]; intros ls' H; simpl in H.
  - injection H as <-. reflexivity.
  - unfold SlideIn_apply in H.
    destruct (_ || _); [|discriminate].
    destruct (slide_all side r) as [e|r'] eqn:E; [discriminate|].
    injection H as <-. rewrite (IH r' eq_refl). reflexivity.
Qed.

Lemma slide_all_unknown side l ls :
  ~ In side ["left"; "right"; "top"; "bottom"] ->
  slide_all side (l :: ls) = inl KeyError.
Proof.
  intros H. simpl. unfold SlideIn_apply.
  destruct (String.eqb_spec side "left"); [subst; simpl in H; tauto|].
  destruct (String.eqb_spec side "right"); [subst; simpl in H; tauto|].
  destruct (String.eqb_spec side "top"); [subst; simpl in H; tauto|].
  destruct (String.eqb_spec side "bottom"); [subst; simpl in H; tauto|].
  reflexivity.
Qed.

(** The duration of the composed clip, for each supported transition. *)
Lemma compose_length :
  forall transition (d0 : Q) rest,
    Forall (fun d => t_padding transition <= d) rest ->
    (In (t_name transition) ["CROSS_FADE"; "FADE_IN"] \/
     (t_name transition = "SLIDE_IN" /\
      In (t_side transition) ["left"; "right"; "top"; "bottom"]) \/
     (t_name transition = "SWIPE" /\
      exists o, get_opposite_side (t_side transition) = inr o)) ->
    exists D, compose transition (d0 :: rest) = inr D /\
              D == adjusted_total (d0 :: rest) (t_padding transition).
Proof.
  intros transition d0 rest Hf Hn. unfold compose.
  assert (Hc : compose_chain d0 (t_padding transition) rest
                 == adjusted_total (d0 :: rest) (t_padding transition)).
  { rewrite (compose_chain_total _ _ Hf), adjusted_total_cons. reflexivity. }
  destruct Hn as [Hn | [[Hn Hs] | [Hn [o Ho]]]].
  - simpl in Hn. destruct Hn as [Hn | [Hn | []]]; rewrite <- Hn; simpl.
    + eexists; split; [reflexivity | exact Hc].
    + eexists; split; [reflexivity | apply fade_layers_total; exact Hf].
  - rewrite Hn. simpl. rewrite (slide_all_ok _ _ Hs).
    eexists; split; [reflexivity | apply fade_layers_total; exact Hf].
  - rewrite Hn. simpl. unfold swipe. rewrite Ho.
    eexists; split; [reflexivity | exact Hc].
Qed.

(** Every transition supported by [concatenate_video_clips] gives a
    composed clip that lasts the padding-adjusted total of the clips
    (the sum of the durations minus one padding per junction), provided
    no clip after the first is shorter than the padding; [SLIDE_IN] needs
    a side that [SlideIn] knows and [SWIPE] one that [get_opposite_side]
    accepts. *)
Theorem transition_length_is_adjusted_total :
  forall transition (d0 : Q) rest,
    Forall (fun d => t_padding transition <= d) rest ->
    (In (t_name transition) ["CROSS_FADE"; "FADE_IN"] \/
     (t_name transition = "SLIDE_IN" /\
      In (t_side transition) ["left"; "right"; "top"; "bottom"]) \/
     (t_name transition = "SWIPE" /\
      exists o, get_opposite_side (t_side transition) = inr o)) ->
    exists D, compose transition (d0 :: rest) = inr D /\
              D == adjusted_total (d0 :: rest) (t_padding transition).
Proof. exact compose_length. Qed.

Lemma transition_length_is_adjusted_total_witness :
  exists D, compose fade_transition [2; 4; 4; 3] = inr D /\
            D == adjusted_total [2; 4; 4; 3] 1.
Proof.
  apply (transition_length_is_adjusted_total fade_transition 2 [4; 4; 3]).
  - repeat constructor; apply Qle_bool_iff; reflexivity.
  - left. simpl. tauto.
Defined.

Lemma chain_overlap (padding : Q) (clips : list Q) :
  forall idx k l l',
    nth_error (chain_layers idx padding clips) k = Some l ->
    nth_error (chain_layers idx padding clips) (S k) = Some l' ->
    l_start l' == l_end l - padding.
Proof.
  induction clips as [|d r IH]; intros idx k l l' H1 H2.
  - destruct k; discriminate.
  - destruct k as [|k].
    + simpl in H1. injection H1 as <-.
      destruct r as [|d' r']; simpl in H2; [discriminate|].
      injection H2 as <-. unfold l_end. cbn [l_start l_duration]. lra.
    + exact (IH _ k l l' H1 H2).
Qed.

Lemma chain_durations (idx padding : Q) clips :
  map l_duration (chain_layers idx padding clips) = clips.
Proof.
  revert idx. induction clips as [|d r IH]; intros idx; simpl;
    [reflexivity | rewrite IH; reflexivity].
Qed.

Lemma fade_schedule (d0 padding : Q) rest ls :
  ls = mkLayer 0 d0 :: chain_layers (d0 - padding) padding rest ->
  map l_duration ls = d0 :: rest /\
  (forall l, nth_error ls 0 = Some l -> l_start l = 0) /\
  (forall k l l', nth_error ls k = Some l -> nth_error ls (S k) = Some l' ->
     l_start l' == l_end l - padding).
Proof.
  intros ->. split; [simpl; rewrite chain_durations; reflexivity|]. split.
  - intros l H. simpl in H. injection H as <-. reflexivity.
  - intros [|k] l l' H1 H2.
    + simpl in H1. injection H1 as <-.
      destruct rest as [|d' r']; simpl in H2; [discriminate|].
      injection H2 as <-. unfold l_end. cbn [l_start l_duration]. lra.
    + exact (chain_overlap padding rest _ k l l' H1 H2).
Qed.

(** [fade_in] and [slide_in] place the clips in order, each for its own
    duration: the first starts at 0 and every next clip starts [padding]
    seconds before the previous one ends. *)
Theorem fade_and_slide_schedule :
  forall (clips : list Q) padding side ls,
    (fade_in clips padding = inr ls \/ slide_in clips padding side = inr ls) ->
    map l_duration ls = clips /\
    (forall l, nth_error ls 0 = Some l -> l_start l = 0) /\
    (forall k l l', nth_error ls k = Some l -> nth_error ls (S k) = Some l' ->
       l_start l' == l_end l - padding).
Proof.
  intros clips padding side ls H.
  destruct clips as [|d0 rest].
  - destruct H as [H | H]; discriminate.
  - apply fade_schedule. destruct H as [H | H]; simpl in H.
    + injection H as <-. reflexivity.
    + destruct (slide_all side _) as [e|slid] eqn:E; [discriminate|].
      injection H as <-. rewrite (slide_all_inv _ _ _ E). reflexivity.
Qed.

Lemma fade_and_slide_schedule_witness :
  map l_duration (mkLayer 0 2 :: chain_layers (2 - 1) 1 [4; 3]) = [2; 4; 3] /\
  (forall l, nth_error (mkLayer 0 2 :: chain_layers (2 - 1) 1 [4; 3]) 0 = Some l ->
     l_start l = 0) /\
  (forall k l l', nth_error (mkLayer 0 2 :: chain_layers (2 - 1) 1 [4; 3]) k = Some l ->
     nth_error (mkLayer 0 2 :: chain_layers (2 - 1) 1 [4; 3]) (S k) = Some l' ->
     l_start l' == l_end l - 1).
Proof.
  apply (fade_and_slide_schedule [2; 4; 3] 1 "left"). left. reflexivity.
Defined.



(** [slide_in] with a side that [SlideIn] does not know raises [KeyError]
    as soon as there is a clip after the first, and so does
    [concatenate_video_clips]'s SLIDE_IN case; a single clip is returned
    as it is, since no [SlideIn] is applied. *)
Theorem slide_in_checks_side :
  forall (d0 d1 : Q) rest padding side,
    ~ In side ["left"; "right"; "top"; "bottom"] ->
    slide_in (d0 :: d1 :: rest) padding side = inl KeyError /\
    compose (mkTransition "SLIDE_IN" padding side) (d0 :: d1 :: rest)
      = inl KeyError /\
    slide_in [d0] padding side = inr [mkLayer 0 d0].
Proof.
  intros d0 d1 rest padding side H.
  assert (E : slide_in (d0 :: d1 :: rest) padding side = inl KeyError).
  { unfold slide_in. cbn [chain_layers]. rewrite slide_all_unknown by exact H.
    reflexivity. }
  split; [exact E|]. split; [|reflexivity].
  unfold compose. cbn [t_name t_padding t_side]. rewrite E. reflexivity.
Qed.

Lemma slide_in_checks_side_witness :
  compose (mkTransition "SLIDE_IN" 1 "diagonal") [5; 5; 5] = inl KeyError.
Proof.
  apply (slide_in_checks_side 5 5 [5] 1 "diagonal").
  simpl. intuition discriminate.
Defined.
End AssemblyFacts.

Module CleanupFacts.
Import Editing.
Import Assembly.
Import Fixtures.
Local Open Scope list_scope.

Lemma find_clip_remove x v files :
  find_clip x (remove_file v files) =
    if String.eqb x v then None else find_clip x files.
Proof.
  induction files as [|c r IH]; simpl.
  - destruct (String.eqb x v); reflexivity.
  - unfold remove_file in *. simpl.
    destruct (String.eqb_spec (cf_path c) v) as [Ev|Ev]; simpl.
    + rewrite IH. destruct (String.eqb_spec x v) as [Ex|Ex]; [reflexivity|].
      destruct (String.eqb_spec (cf_path c) x); [congruence | reflexivity].
    + destruct (String.eqb_spec (cf_path c) x) as [Ex|Ex].
      * destruct (String.eqb_spec x v); [congruence | reflexivity].
      * exact IH.
Qed.

(** Inputs that are not removed keep their file. *)
Lemma remove_inputs_other videos :
  forall files x, ~ In x videos ->
    find_clip x (remove_inputs videos files) = find_clip x files.
Proof.
  induction videos as [|v r IH]; intros files x Hx; simpl; [reflexivity|].
  destruct (find_clip v files); [|reflexivity].
  rewrite IH by (simpl in Hx; tauto). rewrite find_clip_remove.
  destruct (String.eqb_spec x v); [subst; exfalso; apply Hx; left; reflexivity | reflexivity].
Qed.

Lemma remove_inputs_all videos :
  forall files, NoDup videos ->
    (forall v, In v videos -> find_clip v files <> None) ->
    forall x, In x videos -> find_clip x (remove_inputs videos files) = None.
Proof.
  induction videos as [|v r IH]; intros files Hd He x Hx; [destruct Hx|].
  inversion Hd as [|? ? Hv Hr]; subst. simpl.
  destruct (find_clip v files) eqn:Ef; [|exfalso; apply (He v); [left|]; auto].
  destruct Hx as [<- | Hx].
  - rewrite remove_inputs_other by exact Hv. rewrite find_clip_remove.
    rewrite String.eqb_refl. reflexivity.
  - apply IH; [exact Hr | | exact Hx].
    intros u Hu. rewrite find_clip_remove.
    destruct (String.eqb_spec u v) as [->|]; [contradiction | apply He; right; exact Hu].
Qed.

(** The [try] block leaves the files as they are, or adds the target. *)
Lemma concatenate_body_files videos transition output_length trim_location
    rw rh tmp files :
  snd (concatenate_body videos transition output_length trim_location rw rh tmp
         files) = files \/
  exists c, cf_path c = (tmp ++ "/concat_target.mp4")%string /\
    snd (concatenate_body videos transition output_length trim_location rw rh
           tmp files) = c :: remove_file (tmp ++ "/concat_target.mp4") files.
Proof.
  unfold concatenate_body.
  destruct videos as [|v0 r]; [left; reflexivity|].
  destruct (find_clip v0 files); [|left; reflexivity].
  destruct (load_all (v0 :: r) files); [left; reflexivity|].
  destruct (trim_clips _ _ _ _ _); [left; reflexivity|].
  destruct (compose _ _); [left; reflexivity|].
  right. eexists. split; [|reflexivity]. reflexivity.
Qed.

Lemma find_clip_after_body videos transition output_length trim_location
    rw rh tmp files x :
  x <> (tmp ++ "/concat_target.mp4")%string ->
  find_clip x (snd (concatenate_body videos transition output_length
                      trim_location rw rh tmp files)) = find_clip x files.
Proof.
  intros Hx.
  destruct (concatenate_body_files videos transition output_length
              trim_location rw rh tmp files) as [-> | [c [Hc ->]]];
    [reflexivity|].
  simpl. rewrite Hc. destruct (String.eqb_spec (tmp ++ "/concat_target.mp4") x);
    [congruence|]. rewrite find_clip_remove.
  destruct (String.eqb_spec x (tmp ++ "/concat_target.mp4")); [congruence | reflexivity].
Qed.

Lemma exists_after_body videos transition output_length trim_location
    rw rh tmp files x :
  find_clip x files <> None ->
  find_clip x (snd (concatenate_body videos transition output_length
                      trim_location rw rh tmp files)) <> None.
Proof.
  intros Hx.
  destruct (String.eqb_spec x (tmp ++ "/concat_target.mp4")) as [->|Ht].
  - destruct (concatenate_body_files videos transition output_length
                trim_location rw rh tmp files) as [-> | [c [Hc ->]]];
      [exact Hx|].
    simpl. rewrite Hc, String.eqb_refl. discriminate.
  - rewrite find_clip_after_body by exact Ht. exact Hx.
Qed.

(** [concatenate_video_clips] on distinct existing input files: whether
    it succeeds or raises, the [finally] clause deletes every input file,
    and leaves every other file but the target as it was. *)
Theorem concatenate_removes_inputs :
  forall videos transition output_length trim_location rw rh tmp files,
    NoDup videos ->
    (forall v, In v videos -> find_clip v files <> None) ->
    (forall x, In x videos ->
       find_clip x (snd (concatenate_video_clips videos transition output_length
                           trim_location rw rh tmp files)) = None) /\
    (forall x, ~ In x videos -> x <> (tmp ++ "/concat_target.mp4")%string ->
       find_clip x (snd (concatenate_video_clips videos transition output_length
                           trim_location rw rh tmp files)) = find_clip x files).
Proof.
  intros videos transition output_length trim_location rw rh tmp files Hd He.
  unfold concatenate_video_clips.
  pose proof (exists_after_body videos transition output_length trim_location
                rw rh tmp files) as Hx.
  pose proof (find_clip_after_body videos transition output_length trim_location
                rw rh tmp files) as Hf.
  destruct (concatenate_body videos transition output_length trim_location rw rh
              tmp files) as [r files'].
  cbn [snd] in *. split.
  - apply remove_inputs_all; [exact Hd |].
    intros v Hv. apply Hx. apply He. exact Hv.
  - intros x Hn Ht. rewrite remove_inputs_other by exact Hn. apply Hf. exact Ht.
Qed.

Lemma concatenate_removes_inputs_witness :
  Forall (fun x =>
    find_clip x (snd (concatenate_video_clips clip_paths fade_transition 8 "end"
                        1080 1920 "/content" clip_files)) = None) clip_paths.
Proof.
  apply Forall_forall.
  apply (proj1 (concatenate_removes_inputs clip_paths fade_transition 8 "end"
                  1080 1920 "/content" clip_files
                  ltac:(repeat constructor; simpl; intuition discriminate)
                  ltac:(intros v Hv; simpl in Hv;
                        repeat destruct Hv as [<- | Hv]; try destruct Hv;
                        discriminate))).
Defined.

Lemma load_all_missing m files videos :
  In m videos -> find_clip m files = None -> load_all videos files = inl OSError.
Proof.
  intros Hm Hf. induction videos as [|v r IH]; [destruct Hm|]. simpl.
  destruct (find_clip v files) eqn:Ev; [|reflexivity].
  destruct Hm as [<- | Hm]; [congruence|]. rewrite (IH Hm). reflexivity.
Qed.

Lemma remove_inputs_stop pre :
  forall files m post, NoDup pre ->
    (forall v, In v pre -> find_clip v files <> None) ->
    find_clip m files = None -> ~ In m pre ->
    remove_inputs (pre ++ m :: post) files = remove_inputs pre files.
Proof.
  induction pre as [|v r IH]; intros files m post Hd He Hm Hn; simpl.
  - rewrite Hm. reflexivity.
  - inversion Hd as [|? ? Hv Hr]; subst.
    destruct (find_clip v files) eqn:Ev; [|reflexivity].
    apply IH; [exact Hr | | | simpl in Hn; tauto].
    + intros u Hu. rewrite find_clip_remove.
      destruct (String.eqb_spec u v) as [->|]; [contradiction | apply He; right; exact Hu].
    + rewrite find_clip_remove. destruct (String.eqb m v); [reflexivity | exact Hm].
Qed.

(** An input file that does not exist makes [VideoFileClip] raise
    [OSError]; the cleanup then stops at that path on its
    [FileNotFoundError]: the inputs before it are deleted and the ones
    after it stay on disk. *)
Theorem missing_input_stops_cleanup :
  forall pre m post transition output_length trim_location rw rh tmp files,
    NoDup pre ->
    (forall v, In v pre -> find_clip v files <> None) ->
    find_clip m files = None -> ~ In m pre ->
    fst (concatenate_video_clips (pre ++ m :: post) transition output_length
           trim_location rw rh tmp files) = inl OSError /\
    (forall x, In x pre ->
       find_clip x (snd (concatenate_video_clips (pre ++ m :: post) transition
                           output_length trim_location rw rh tmp files)) = None) /\
    (forall x, ~ In x pre ->
       find_clip x (snd (concatenate_video_clips (pre ++ m :: post) transition
                           output_length trim_location rw rh tmp files))
         = find_clip x files).
Proof.
  intros pre m post transition output_length trim_location rw rh tmp files
    Hd He Hm Hn.
  assert (Hb : concatenate_body (pre ++ m :: post) transition output_length
                 trim_location rw rh tmp files = (inl OSError, files)).
  { unfold concatenate_body.
    destruct (pre ++ m :: post) as [|v0 r] eqn:E; [destruct pre; discriminate|].
    destruct (find_clip v0 files) eqn:E0; [|reflexivity].
    rewrite (load_all_missing m files (v0 :: r)); [reflexivity | | exact Hm].
    rewrite <- E. apply in_or_app. right. left. reflexivity. }
  unfold concatenate_video_clips. rewrite Hb. cbn [fst snd].
  rewrite remove_inputs_stop by assumption.
  split; [reflexivity | split].
  - apply remove_inputs_all; assumption.
  - intros x Hx. apply remove_inputs_other. exact Hx.
Qed.

Lemma missing_input_stops_cleanup_witness :
  fst (concatenate_video_clips ["/content/intro.mp4"; "/content/gone.mp4";
                                "/content/a.mp4"] fade_transition 8 "end"
         1080 1920 "/content" clip_files) = inl OSError /\
  find_clip "/content/a.mp4"
    (snd (concatenate_video_clips ["/content/intro.mp4"; "/content/gone.mp4";
                                   "/content/a.mp4"] fade_transition 8 "end"
            1080 1920 "/content" clip_files)) =
    find_clip "/content/a.mp4" clip_files.
Proof.
  destruct (missing_input_stops_cleanup ["/content/intro.mp4"] "/content/gone.mp4"
              ["/content/a.mp4"] fade_transition 8 "end" 1080 1920 "/content"
              clip_files
              ltac:(repeat constructor; simpl; tauto)
              ltac:(intros v [<- | []]; discriminate)
              eq_refl
              ltac:(simpl; intuition discriminate)) as [H1 [_ H3]].
  split; [exact H1|]. apply H3. simpl. intuition discriminate.
Defined.

Lemma compose_unsupported transition clips :
  ~ In (t_name transition) ["CROSS_FADE"; "FADE_IN"; "SWIPE"; "SLIDE_IN"] ->
  compose transition clips = inl ValueError.
Proof.
  intros H. unfold compose. simpl in H.
  destruct (String.eqb_spec (t_name transition) "CROSS_FADE") as [E0|E0];
    [exfalso; apply H; rewrite E0; simpl; tauto|].
  destruct (String.eqb_spec (t_name transition) "FADE_IN") as [E1|E1];
    [exfalso; apply H; rewrite E1; simpl; tauto|].
  destruct (String.eqb_spec (t_name transition) "SWIPE") as [E2|E2];
    [exfalso; apply H; rewrite E2; simpl; tauto|].
  destruct (String.eqb_spec (t_name transition) "SLIDE_IN") as [E3|E3];
    [exfalso; apply H; rewrite E3; simpl; tauto|].
  reflexivity.
Qed.

(** A transition name other than CROSS_FADE, FADE_IN, SWIPE and SLIDE_IN
    never yields a target path, and no target file is written. *)
Theorem unsupported_transition_never_succeeds :
  forall videos transition output_length trim_location rw rh tmp files,
    ~ In (t_name transition) ["CROSS_FADE"; "FADE_IN"; "SWIPE"; "SLIDE_IN"] ->
    (forall p, fst (concatenate_video_clips videos transition output_length
                      trim_location rw rh tmp files) <> inr p) /\
    snd (concatenate_body videos transition output_length trim_location rw rh
           tmp files) = files.
Proof.
  intros videos transition output_length trim_location rw rh tmp files H.
  assert (Hb : (forall p, fst (concatenate_body videos transition output_length
                      trim_location rw rh tmp files) <> inr p) /\
               snd (concatenate_body videos transition output_length
                      trim_location rw rh tmp files) = files).
  { unfold concatenate_body.
    destruct videos as [|v0 r]; [repeat split; discriminate|].
    destruct (find_clip v0 files); [|repeat split; discriminate].
    destruct (load_all (v0 :: r) files); [repeat split; discriminate|].
    destruct (trim_clips _ _ _ _ _); [repeat split; discriminate|].
    rewrite compose_unsupported by exact H. repeat split; discriminate. }
  destruct Hb as [Hp Hs]. split; [|exact Hs].
  intros p. unfold concatenate_video_clips.
  specialize (Hp p).
  destruct (concatenate_body videos transition output_length trim_location rw rh
              tmp files) as [r files']. exact Hp.
Qed.

Lemma unsupported_transition_never_succeeds_witness :
  fst (concatenate_video_clips clip_paths (mkTransition "ZOOM" 1 "left") 8 "end"
         1080 1920 "/content" clip_files) <> inr "/content/concat_target.mp4".
Proof.
  apply (proj1 (unsupported_transition_never_succeeds clip_paths
                  (mkTransition "ZOOM" 1 "left") 8 "end" 1080 1920 "/content"
                  clip_files ltac:(simpl; intuition discriminate))).
Defined.
End CleanupFacts.

Module AssemblyLengthFacts.
Import Editing.
Import Assembly.
Import Fixtures.
Local Open Scope list_scope.
Local Open Scope Q_scope.

Lemma sum_durations_app (l1 l2 : list Q) :
  sum_durations (l1 ++ l2) == sum_durations l1 + sum_durations l2.
Proof.
  induction l1 as [|d r IH]; cbn [app sum_durations]; [lra|].
  rewrite IH. lra.
Qed.

Lemma sum_durations_Forall2 (l1 l2 : list Q) :
  Forall2 Qeq l1 l2 -> sum_durations l1 == sum_durations l2.
Proof.
  induction 1 as [|x y r1 r2 Hxy _ IH]; cbn [sum_durations]; [reflexivity|].
  rewrite Hxy, IH. reflexivity.
Qed.

Lemma sum_durations_shift (s : Q) (l : list Q) :
  sum_durations (map (fun d => d - s) l) ==
    sum_durations l - s * inject_Z (Z.of_nat (length l)).
Proof.
  induction l as [|d r IH]; cbn [map sum_durations length].
  - change (inject_Z (Z.of_nat 0)) with 0. lra.
  - rewrite IH, AssemblyFacts.inject_Z_succ. lra.
Qed.

Lemma Forall2_shift_lower (padding s : Q) (mid : list Q) :
  forall out, Forall2 Qeq out (map (fun d => d - s) mid) ->
  Forall (fun d => padding <= d - s) mid -> Forall (fun d => padding <= d) out.
Proof.
  induction mid as [|d r IH]; intros out H Hf; inversion H; subst; constructor.
  - inversion Hf; subst. match goal with E : _ == _ |- _ => rewrite E end. assumption.
  - inversion Hf; subst. apply IH; assumption.
Qed.

(** [trim_clips] when the share fits every interior clip. *)
Lemma trim_clips_interior (a z : Q) mid padding output_length loc :
  mid <> [] -> output_length <= adjusted_total (a :: mid ++ [z]) padding ->
  (loc = "start" \/ loc = "end")%string ->
  let s := (adjusted_total (a :: mid ++ [z]) padding - output_length)
             / inject_Z (Z.of_nat (length (a :: mid ++ [z])) - 2) in
  Forall (fun d => s < d) mid ->
  exists out_mid,
    trim_clips (a :: mid ++ [z]) padding output_length loc true
      = inr (a :: out_mid ++ [z]) /\
    Forall2 Qeq out_mid (map (fun d => d - s) mid).
Proof.
  intros Hmid Hle Hloc s Hs.
  assert (Hk : (0 < Z.of_nat (length (a :: mid ++ [z])) - 2)%Z).
  { rewrite length_cons, length_app. simpl length.
    destruct mid; [contradiction | simpl length; lia]. }
  assert (Hs0 : 0 <= s).
  { apply EditingFacts.trim_share_nonneg; [lra | exact Hk]. }
  destruct (EditingFacts.trim_all_ok loc s mid Hloc Hs0 Hs) as [out [E1 E2]].
  exists out. split; [|exact E2].
  unfold trim_clips. unfold adjusted_total in Hle, s.
  rewrite EditingFacts.Qlt_bool_false by lra. simpl orb.
  unfold number_of_intros_outros_clips.
  rewrite (proj2 (Z.eqb_neq _ _)) by lia.
  rewrite EditingFacts.interior_shape. fold s. rewrite E1.
  rewrite EditingFacts.replace_interior_shape. reflexivity.
Qed.

Lemma load_all_head v0 r files ds :
  load_all (v0 :: r) files = inr ds -> exists c0, find_clip v0 files = Some c0.
Proof.
  simpl. destruct (find_clip v0 files) as [c0|]; [|discriminate].
  intros _. exists c0. reflexivity.
Qed.

(** End to end: [concatenate_video_clips] with a transition of fixed
    timing (CROSS_FADE, FADE_IN, or SLIDE_IN with one of the four sides
    of [SlideIn]) on loaded clips of durations
    [a :: mid ++ [z]] whose padding-adjusted total reaches the target,
    where the trim share [s] fits every interior clip with at least the
    padding left, returns the target path, and the file written there,
    which the cleanup keeps, lasts exactly [output_length]. *)
Theorem concatenation_has_output_length :
  forall videos transition output_length trim_location rw rh tmp files a mid z,
    (In (t_name transition) ["CROSS_FADE"; "FADE_IN"] \/
     (t_name transition = "SLIDE_IN" /\
      In (t_side transition) ["left"; "right"; "top"; "bottom"])) ->
    load_all videos files = inr (a :: mid ++ [z]) -> mid <> [] ->
    output_length <= adjusted_total (a :: mid ++ [z]) (t_padding transition) ->
    (trim_location = "start" \/ trim_location = "end")%string ->
    let s := (adjusted_total (a :: mid ++ [z]) (t_padding transition)
                - output_length)
               / inject_Z (Z.of_nat (length (a :: mid ++ [z])) - 2) in
    Forall (fun d => s < d /\ t_padding transition <= d - s) mid ->
    t_padding transition <= z ->
    ~ In (tmp ++ "/concat_target.mp4")%string videos ->
    fst (concatenate_video_clips videos transition output_length trim_location
           rw rh tmp files) = inr (tmp ++ "/concat_target.mp4")%string /\
    exists c, find_clip (tmp ++ "/concat_target.mp4")
                (snd (concatenate_video_clips videos transition output_length
                        trim_location rw rh tmp files)) = Some c /\
              cf_duration c == output_length.
Proof.
  intros videos transition output_length trim_location rw rh tmp files a mid z
    Hn Hl Hmid Hle Hloc s Hf Hz Ht.
  set (p := t_padding transition) in *.
  destruct (trim_clips_interior a z mid p output_length trim_location Hmid Hle Hloc)
    as [out_mid [Etrim Eq]].
  { apply (Forall_impl _ (fun d H => proj1 H) Hf). }
  fold s in Eq.
  assert (Hlow : Forall (fun d => p <= d) (out_mid ++ [z])).
  { apply Forall_app. split; [|repeat constructor; exact Hz].
    apply (Forall2_shift_lower p s mid out_mid Eq).
    apply (Forall_impl _ (fun d H => proj2 H) Hf). }
  destruct (AssemblyFacts.compose_length transition a (out_mid ++ [z]) Hlow
              ltac:(destruct Hn as [Hn | Hn]; [left | right; left]; exact Hn))
    as [D [Ec ED]].
  fold p in ED.
  assert (HL : length out_mid = length mid) by
    (apply Forall2_length in Eq; rewrite Eq, length_map; reflexivity).
  assert (HM : ~ inject_Z (Z.of_nat (length mid)) == 0).
  { destruct mid; [contradiction|]. unfold Qeq. simpl. lia. }
  assert (HK : inject_Z (Z.of_nat (length (a :: mid ++ [z])) - 2)
                 == inject_Z (Z.of_nat (length mid))).
  { replace (Z.of_nat (length (a :: mid ++ [z])) - 2)%Z
      with (Z.of_nat (length mid)); [reflexivity|].
    rewrite length_cons, length_app. simpl length. lia. }
  assert (HsM : s * inject_Z (Z.of_nat (length mid)) ==
                adjusted_total (a :: mid ++ [z]) p - output_length).
  { unfold s. rewrite HK. field. exact HM. }
  assert (HD : D == output_length).
  { rewrite ED, !AssemblyFacts.adjusted_total_cons.
    rewrite AssemblyFacts.adjusted_total_cons in HsM.
    rewrite !sum_durations_app in *.
    rewrite (sum_durations_Forall2 _ _ Eq), sum_durations_shift in *.
    rewrite !length_app, HL in *. lra. }
  destruct videos as [|v0 r]; [discriminate|].
  destruct (load_all_head v0 r files _ Hl) as [c0 Hc0].
  unfold concatenate_video_clips, concatenate_body.
  fold p. rewrite Hc0, Hl, Etrim, Ec. cbn [fst snd]. split; [reflexivity|].
  eexists. split.
  - rewrite CleanupFacts.remove_inputs_other by exact Ht.
    simpl. rewrite String.eqb_refl. reflexivity.
  - exact HD.
Qed.

Lemma concatenation_has_output_length_witness :
  fst (concatenate_video_clips clip_paths fade_transition 8 "end" 1080 1920
         "/content" clip_files) = inr "/content/concat_target.mp4" /\
  exists c, find_clip "/content/concat_target.mp4"
              (snd (concatenate_video_clips clip_paths fade_transition 8 "end"
                      1080 1920 "/content" clip_files)) = Some c /\
            cf_duration c == 8.
Proof.
  apply (concatenation_has_output_length clip_paths fade_transition 8 "end"
           1080 1920 "/content" clip_files 2 [5; 5] 2).
  - left. simpl. tauto.
  - reflexivity.
  - discriminate.
  - apply Qle_bool_iff. reflexivity.
  - right. reflexivity.
  - repeat constructor; vm_compute; reflexivity || discriminate.
  - apply Qle_bool_iff. reflexivity.
  - simpl. intuition discriminate.
Defined.
End AssemblyLengthFacts.

Module AudioTilingFacts.
Import VideoEditing.
Import Fixtures.
Local Open Scope Q_scope.

Section Tiling.
Variable audio_inputs : list AudioInput.
Variable video_duration : Q.

Lemma gap_duration i :
  Forall (fun a => truthy (duration a) = false) audio_inputs ->
  (i < length audio_inputs)%nat ->
  calculate_audio_duration i audio_inputs video_duration
    = inr (boundary audio_inputs video_duration (S i)
           - boundary audio_inputs video_duration i).
Proof.
  intros Hf Hi. unfold calculate_audio_duration, boundary.
  destruct (nth_error audio_inputs i) as [a|] eqn:Ea;
    [|apply nth_error_None in Ea; lia].
  assert (Ht : truthy (duration a) = false).
  { rewrite Forall_forall in Hf. apply Hf. eapply nth_error_In. exact Ea. }
  rewrite Ht. cbv iota beta. simpl negb. cbv iota.
  destruct (Nat.ltb_spec i (length audio_inputs - 1)).
  - destruct (nth_error audio_inputs (S i)) eqn:E; [reflexivity|].
    apply nth_error_None in E. lia.
  - assert (E : nth_error audio_inputs (S i) = None) by (apply nth_error_None; lia).
    rewrite E. reflexivity.
Qed.

Lemma telescope k m :
  let b := boundary audio_inputs video_duration in
  Editing.sum_durations (map (fun i => b (S i) - b i) (seq k m))
    == b (k + m)%nat - b k.
Proof.
  intros b. revert k. induction m as [|m IH]; intros k; cbn [seq map Editing.sum_durations].
  - rewrite Nat.add_0_r. lra.
  - rewrite IH. rewrite Nat.add_succ_r. cbn [Nat.add]. 
    replace (S (k + m)) with (S k + m)%nat by lia. lra.
Qed.
End Tiling.

(** When no overlay has a truthy duration, [load_audio_clips] plays the
    overlays back to back: each lasts until the next one starts (the last
    one until the end of the host video), and together they cover the
    host video from the first start to its end. *)
Theorem untimed_overlays_tile_the_video :
  forall (a : AudioInput) rest video_duration,
    Forall (fun x => truthy (duration x) = false) (a :: rest) ->
    exists ds, resolved_durations (a :: rest) video_duration = map inr ds /\
      (forall i x d, nth_error (a :: rest) i = Some x -> nth_error ds i = Some d ->
         start_time x + d == match nth_error (a :: rest) (S i) with
                             | Some y => start_time y
                             | None => video_duration
                             end) /\
      Editing.sum_durations ds == video_duration - start_time a.
Proof.
  intros a rest video_duration Hf.
  set (l := a :: rest) in *.
  exists (map (fun i => boundary l video_duration (S i) - boundary l video_duration i)
            (seq 0 (length l))).
  split; [|split].
  - unfold resolved_durations. rewrite map_map. apply map_ext_in.
    intros i Hi. apply in_seq in Hi. apply gap_duration; [exact Hf | lia].
  - intros i x d Hx Hd.
    rewrite nth_error_map in Hd.
    destruct (nth_error (seq 0 (length l)) i) as [j|] eqn:Ej; [|discriminate].
    cbn [option_map] in Hd. injection Hd as <-.
    assert (Hi : (i < length l)%nat).
    { apply nth_error_Some. rewrite Hx. discriminate. }
    rewrite nth_error_seq in Ej. destruct (Nat.ltb_spec i (length l)); [|lia].
    injection Ej as <-. cbn [Nat.add].
    unfold boundary at 2. rewrite Hx. unfold boundary. lra.
  - rewrite (telescope l video_duration). cbn [Nat.add].
    unfold boundary.
    replace (nth_error l (length l)) with (@None AudioInput)
      by (symmetry; apply nth_error_None; lia).
    reflexivity.
Qed.

Lemma untimed_overlays_tile_the_video_witness :
  exists ds, resolved_durations [overlay "a.mp3" 2 None; overlay "b.mp3" 5 (Some 0)] 20
               = map inr ds /\
    (forall i x d, nth_error [overlay "a.mp3" 2 None; overlay "b.mp3" 5 (Some 0)] i
                     = Some x -> nth_error ds i = Some d ->
       start_time x + d ==
         match nth_error [overlay "a.mp3" 2 None; overlay "b.mp3" 5 (Some 0)] (S i)
         with
         | Some y => start_time y
         | None => 20
         end) /\
    Editing.sum_durations ds == 20 - 2.
Proof.
  apply (untimed_overlays_tile_the_video (overlay "a.mp3" 2 None)
           [overlay "b.mp3" 5 (Some 0)] 20).
  repeat constructor.
Defined.
End AudioTilingFacts.

Module HexDigitFacts.
Import Image.
Import Fixtures.

Lemma hex_digit_cases c v : hex_digit c = Some v -> In c hex_chars.
Proof.
  intros H.
  destruct c as [[] [] [] [] [] [] [] []]; vm_compute in H;
    try discriminate H; vm_compute; tauto.
Qed.

Ltac hex_cases H :=
  let Hin := fresh in
  pose proof (hex_digit_cases _ _ H) as Hin; vm_compute in Hin;
  repeat destruct Hin as [<- | Hin]; try destruct Hin;
  vm_compute in H; injection H as <-.

Lemma int16_pair c1 c2 v1 v2 :
  hex_digit c1 = Some v1 -> hex_digit c2 = Some v2 ->
  int16 (String c1 (String c2 "")) = inr (v1 * 16 + v2)%Z.
Proof.
  intros H1 H2. hex_cases H1; hex_cases H2; reflexivity.
Qed.

Lemma int16_negative c v :
  hex_digit c = Some v -> int16 (String "-" (String c "")) = inr (- v)%Z.
Proof. intros H. hex_cases H; reflexivity. Qed.

Lemma hex_digit_range c v : hex_digit c = Some v -> (0 <= v < 16)%Z.
Proof. intros H. hex_cases H; lia. Qed.

Lemma hex_digit_not_hash c v : hex_digit c = Some v -> Ascii.eqb c "#" = false.
Proof. intros H. hex_cases H; reflexivity. Qed.

(** [hex_to_rgb] on six hex digits, lower or upper case, with or without
    a leading ['#']: each channel is the value of its two digits, between
    0 and 255. *)
Theorem hex_to_rgb_six_digits :
  forall c1 c2 c3 c4 c5 c6 v1 v2 v3 v4 v5 v6,
    hex_digit c1 = Some v1 -> hex_digit c2 = Some v2 ->
    hex_digit c3 = Some v3 -> hex_digit c4 = Some v4 ->
    hex_digit c5 = Some v5 -> hex_digit c6 = Some v6 ->
    let s := String c1 (String c2 (String c3 (String c4 (String c5 (String c6 ""))))) in
    hex_to_rgb s = inr (v1 * 16 + v2, v3 * 16 + v4, v5 * 16 + v6)%Z /\
    hex_to_rgb (String "#" s) = hex_to_rgb s /\
    (0 <= v1 * 16 + v2 <= 255 /\ 0 <= v3 * 16 + v4 <= 255 /\
     0 <= v5 * 16 + v6 <= 255)%Z.
Proof.
  intros c1 c2 c3 c4 c5 c6 v1 v2 v3 v4 v5 v6 H1 H2 H3 H4 H5 H6 s.
  assert (Hs : hex_to_rgb s = inr (v1 * 16 + v2, v3 * 16 + v4, v5 * 16 + v6)%Z).
  { unfold hex_to_rgb, s. simpl lstrip_hash. rewrite (hex_digit_not_hash _ _ H1).
    cbn [String.length Nat.eqb negb]. unfold slice. cbn [substring Nat.sub].
    rewrite (int16_pair _ _ _ _ H1 H2), (int16_pair _ _ _ _ H3 H4),
      (int16_pair _ _ _ _ H5 H6). reflexivity. }
  split; [exact Hs | split].
  - reflexivity.
  - apply hex_digit_range in H1, H2, H3, H4, H5, H6. lia.
Qed.

Lemma hex_to_rgb_six_digits_witness :
  hex_to_rgb "Ff8000" = inr (255, 128, 0)%Z.
Proof.
  apply (hex_to_rgb_six_digits "F" "f" "8" "0" "0" "0" 15 15 8 0 0 0);
    reflexivity.
Defined.

(** [hex_to_rgb] does not check that its channels are hex pairs: three
    signed digits such as ["-f-f-f"] pass the length check and [int(_, 16)]
    reads them as negative numbers, which are returned without error. *)
Theorem hex_to_rgb_accepts_signed_digits :
  forall c1 c2 c3 v1 v2 v3,
    hex_digit c1 = Some v1 -> hex_digit c2 = Some v2 -> hex_digit c3 = Some v3 ->
    hex_to_rgb (String "-" (String c1 (String "-" (String c2 (String "-"
                  (String c3 "")))))) = inr (- v1, - v2, - v3)%Z.
Proof.
  intros c1 c2 c3 v1 v2 v3 H1 H2 H3.
  unfold hex_to_rgb. cbn [lstrip_hash Ascii.eqb Bool.eqb].
  unfold slice. cbn [String.length Nat.eqb negb substring Nat.sub].
  rewrite (int16_negative _ _ H1), (int16_negative _ _ H2),
    (int16_negative _ _ H3). reflexivity.
Qed.

Lemma hex_to_rgb_accepts_signed_digits_witness :
  hex_to_rgb "-f-f-f" = inr (Z.opp 15, Z.opp 15, Z.opp 15)%Z.
Proof. apply (hex_to_rgb_accepts_signed_digits "f" "f" "f" 15 15 15); reflexivity. Defined.
End HexDigitFacts.

Module FitFacts.
Import ImageFit.
Local Open Scope Q_scope.





End FitFacts.
